(** * Discord mimic bot: context assembly and reply generation

    A shallow embedding of [src/app.py]: the token-budget trimmer
    [limit_context], the transcript normalizer [clean_messages], the
    history formatter [format_history_for_prompt], the bounded-retry
    generator [gen_reply] and the per-user session handling of
    [on_message], followed by the properties of the specification that
    are about them. *)

From Stdlib Require Import String Ascii.
From Stdlib Require QArith_base.
From stdpp Require Import gmap list numbers sorting pretty.

Set Warnings "-register-all".
Local Open Scope Z_scope.

(** ** Python strings

    A Python [str] is a sequence of Unicode code points.  Slicing,
    [startswith], [strip] and [split] all work on code points, so a string
    is a list of code points here. *)

Abbreviation str := (list N).

Module Py.

(** An ASCII literal of the source as a list of code points. *)
Definition lit (s : string) : str :=
  (fun a => N_of_ascii a) <$> list_ascii_of_string s.
Global Arguments lit : simpl never.

(** [str.isspace] on one code point: the characters [strip()] and
    [split()] treat as whitespace. *)
Definition isspace (c : N) : bool :=
  (((9 <=? c) && (c <=? 13)) || ((28 <=? c) && (c <=? 32))
   || (c =? 133) || (c =? 160) || (c =? 5760)
   || ((8192 <=? c) && (c <=? 8202))
   || (c =? 8232) || (c =? 8233) || (c =? 8239) || (c =? 8287)
   || (c =? 12288))%N.

Fixpoint lstrip (s : str) : str :=
  match s with
  | c :: s' => if isspace c then lstrip s' else s
  | [] => []
  end.

Definition rstrip (s : str) : str := rev (lstrip (rev s)).

(** [s.strip()] *)
Definition strip (s : str) : str := rstrip (lstrip s).

(** [s.startswith(p)] *)
Fixpoint startswith (s p : str) : bool :=
  match p, s with
  | [], _ => true
  | c :: p', d :: s' => (c =? d)%N && startswith s' p'
  | _ :: _, [] => false
  end.

(** [s.split()]: the maximal runs of non-whitespace characters. *)
Fixpoint split_from (word s : str) : list str :=
  match s with
  | [] => match word with [] => [] | _ => [word] end
  | c :: s' =>
      if isspace c
      then match word with
           | [] => split_from [] s'
           | _ => word :: split_from [] s'
           end
      else split_from (word ++ [c]) s'
  end.

Definition split (s : str) : list str := split_from [] s.

(** [s.endswith(p)] *)
Definition endswith (s p : str) : bool := startswith (rev s) (rev p).

(** [sep.join(parts)] *)
Fixpoint join (sep : str) (parts : list str) : str :=
  match parts with
  | [] => []
  | [p] => p
  | p :: rest => p ++ sep ++ join sep rest
  end.

(** [l[start:]] for a Python integer [start]: a negative start counts
    from the end and is clamped at the beginning of the list. *)
Definition slice_from {A} (start : Z) (l : list A) : list A :=
  if start <? 0
  then drop (Z.to_nat (Z.max 0 (Z.of_nat (length l) + start))) l
  else drop (Z.to_nat start) l.

(** Parsed JSON values: what [json.loads] returns.  An object is the
    list of its items, keys distinct; numbers with a fraction or an
    exponent are left out of the model. *)
Inductive json :=
| JNull
| JBool (b : bool)
| JInt (z : Z)
| JStr (s : str)
| JList (items : list json)
| JDict (items : list (str * json)).

(** The exceptions the modelled code can meet.  [ServiceError] stands
    for any error raised by an external collaborator (embedding,
    retrieval or generation backend). *)
Inductive exn :=
| KeyError (key : json)
| IndexError
| AttributeError
| TypeError
| ValueError
| ServiceError (code : N).

(** The outcome of a Python expression that may raise. *)
Inductive result (A : Type) :=
| Ok (a : A)
| Raise (e : exn).
Arguments Ok {A} a.
Arguments Raise {A} e.

End Py.

Import Py.

(** ** The tokenizer (external collaborator)

    [encoding.encode] of tiktoken, called with its default arguments:
    deterministic, from a text to its list of token ids, and raising (a
    [ValueError]) on a text it does not accept, such as one that holds a
    special token. *)
Class Tokenizer := { encode : str -> result (list Z) }.

Section TokenContext.
Context `{Tokenizer}.

(** [estimate_tokens], app.py line 30 *)
Definition estimate_tokens (text : str) : result Z :=
  match encode text with
  | Ok tokens => Ok (Z.of_nat (length tokens))
  | Raise e => Raise e
  end.

(** A text the tokenizer does not raise on. *)
Definition accepted (text : str) : bool :=
  match encode text with
  | Ok _ => true
  | Raise _ => false
  end.

(** The [for ln in reversed(lines)] loop of [limit_context] with its
    [break]: [total] and [out] are the loop's two variables, and
    [out.append(ln)] adds at the end.  An exception of the tokenizer ends
    the loop and the function. *)
Fixpoint limit_loop (max_tokens : Z) (rlines : list str)
         (total : Z) (out : list str) : result (list str) :=
  match rlines with
  | [] => Ok out
  | ln :: rest =>
      match estimate_tokens ln with
      | Raise e => Raise e
      | Ok n =>
          if total + n >? max_tokens then Ok out
          else limit_loop max_tokens rest (total + n) (out ++ [ln])
      end
  end.

(** [limit_context], app.py lines 33-41 *)
Definition limit_context (lines : list str) (max_tokens : Z)
  : result (list str) :=
  match limit_loop max_tokens (rev lines) 0 [] with
  | Ok out => Ok (rev out)
  | Raise e => Raise e
  end.

(** Total token count of a list of lines, one tokenizer call per line;
    there is none when the tokenizer raises on a line. *)
Fixpoint total_tokens (lines : list str) : result Z :=
  match lines with
  | [] => Ok 0
  | ln :: rest =>
      match estimate_tokens ln, total_tokens rest with
      | Ok n, Ok t => Ok (n + t)
      | Raise e, _ => Raise e
      | _, Raise e => Raise e
      end
  end.

(** [out] is the maximal trailing suffix of [lines] within the budget:
    a suffix (so in the original order), within the budget, and every
    suffix within the budget is a suffix of it. *)
Definition maximal_budget_suffix
           (out lines : list str) (max_tokens : Z) : Prop :=
  out `suffix_of` lines
  ∧ (∃ t, total_tokens out = Ok t ∧ t <= max_tokens)
  ∧ ∀ suf t, suf `suffix_of` lines → total_tokens suf = Ok t →
             t <= max_tokens → suf `suffix_of` out.

End TokenContext.

(** [p in s] for two strings. *)
Fixpoint contains (s p : str) : bool :=
  startswith s p
  || match s with
     | [] => false
     | _ :: s' => contains s' p
     end.

(** A tokenizer for examples that accepts every text: one token per code
    point. *)
Definition char_tokenizer : Tokenizer :=
  {| encode := fun s => Ok (Z.of_N <$> s) |}.

(** A tokenizer for examples that, like tiktoken by default, refuses a
    text holding the special token [<|endoftext|>], and otherwise gives
    one token per code point. *)
Definition special_tokenizer : Tokenizer :=
  {| encode := fun s =>
       if contains s (lit "<|endoftext|>") then Raise ValueError
       else Ok (Z.of_N <$> s) |}.

(** Python's built-in [str()] of a value that is not a string, as an
    f-string field renders it (part of the language runtime). *)
Class Runtime := {
  py_str : json -> str;
  exn_str : exn -> str
}.

Section Normalizer.
Context `{Runtime}.

(** Truth value of a Python object. *)
Definition truthy (v : json) : bool :=
  match v with
  | JNull => false
  | JBool b => b
  | JInt z => negb (z =? 0)
  | JStr s => match s with [] => false | _ => true end
  | JList l => match l with [] => false | _ => true end
  | JDict d => match d with [] => false | _ => true end
  end.

(** [d.get(k)]: [None] when the key is absent. *)
Fixpoint dict_get (d : list (str * json)) (k : str) : option json :=
  match d with
  | [] => None
  | (k', v) :: d' => if decide (k' = k) then Some v else dict_get d' k
  end.

(** [v == "<literal>"] for a string literal. *)
Definition eq_str (v : json) (s : str) : bool :=
  match v with
  | JStr t => bool_decide (t = s)
  | _ => false
  end.

(** An f-string field [{v}]. *)
Definition format_field (v : json) : str :=
  match v with
  | JStr s => s
  | _ => py_str v
  end.

(** [v.strip()]: only strings have the method. *)
Definition strip_value (v : json) : result str :=
  match v with
  | JStr s => Ok (strip s)
  | _ => Raise AttributeError
  end.

(** The elements a [for m in raw] loop visits. *)
Definition iterate (raw : json) : result (list json) :=
  match raw with
  | JList l => Ok l
  | JDict d => Ok ((fun kv => JStr kv.1) <$> d)
  | JStr s => Ok ((fun c => JStr [c]) <$> s)
  | _ => Raise TypeError
  end.

Definition media_omitted : str := lit "<Media omitted>".
Definition k_message : str := lit "message".
Definition k_sender : str := lit "sender".

(** An entry of the normalizer's output: the dict of app.py
    lines 54-58. *)
Record canonical := {
  c_sender : str;
  c_role : str;
  c_message : str
}.

(** [f'{m["sender"]}:{m["message"]}'], app.py line 49 *)
Definition dedup_key (sender message : json) : str :=
  format_field sender ++ lit ":" ++ format_field message.

(** One iteration of the loop of [clean_messages] on the record [m],
    from the loop state [(seen, out)] to the next one. *)
Definition clean_step (m : json) (st : gset str * list canonical)
  : result (gset str * list canonical) :=
  let '(seen, out) := st in
  match m with
  | JDict d =>
      match dict_get d k_message with
      | None => Ok st
      | Some message =>
          if negb (truthy message) || eq_str message media_omitted
          then Ok st
          else
            match dict_get d k_sender with
            | None => Raise (KeyError (JStr k_sender))
            | Some sender_v =>
                let key := dedup_key sender_v message in
                if decide (key ∈ seen) then Ok st
                else
                  let seen := seen ∪ {[ key ]} in
                  match strip_value sender_v with
                  | Raise e => Raise e
                  | Ok sender =>
                      match split sender with
                      | [] => Raise IndexError
                      | role :: _ =>
                          match strip_value message with
                          | Raise e => Raise e
                          | Ok message =>
                              Ok (seen,
                                  out ++ [ {| c_sender := sender;
                                              c_role := role;
                                              c_message := message |} ])
                          end
                      end
                  end
            end
      end
  | _ => Raise AttributeError
  end.

Fixpoint clean_loop (ms : list json) (st : gset str * list canonical)
  : result (list canonical) :=
  match ms with
  | [] => Ok st.2
  | m :: ms' =>
      match clean_step m st with
      | Raise e => Raise e
      | Ok st' => clean_loop ms' st'
      end
  end.

(** [clean_messages], app.py lines 44-59 *)
Definition clean_messages (raw : json) : result (list canonical) :=
  match iterate raw with
  | Raise e => Raise e
  | Ok ms => clean_loop ms (∅, [])
  end.

(** A raw record [{"sender": s, "message": t}] with two string fields. *)
Definition record (s t : str) : json :=
  JDict [(k_sender, JStr s); (k_message, JStr t)].

End Normalizer.

(** ** Formatting the recent history *)

Definition you_label : str := lit "You:".

(** The rewriting of one history entry, app.py lines 85-91. *)
Definition format_entry (user_name role_name entry : str) : str :=
  if startswith entry you_label
  then user_name ++ lit ": " ++ strip (drop 4 entry)
  else if startswith entry (role_name ++ lit ":")
  then role_name ++ lit ": " ++ strip (drop (length role_name + 1) entry)
  else entry.

(** [format_history_for_prompt], app.py lines 76-92 *)
Definition format_history_for_prompt
           (history : list str) (user_name role_name : str) (limit : Z)
  : list str :=
  let hist := slice_from (- limit) history in
  foldl (fun lines entry => lines ++ [format_entry user_name role_name entry])
        [] hist.

(** ** External services and the effect monad *)

(** A retrieved document: page content and its [{sender, role}] metadata,
    as [build_vector] stores them. *)
Record document := {
  page_content : str;
  meta_sender : str;
  meta_role : str
}.

(** The keyword arguments of [co.generate], app.py lines 137-144. *)
Record gen_request := {
  g_model : str;
  g_prompt : str;
  g_max_tokens : Z;
  g_temperature : QArith_base.Q;
  g_k : Z;
  g_stop_sequences : list str
}.

(** The backends of the pipeline over an environment [Env] they may
    change: the vector store of langchain (an opaque [Store]), the
    generation service, and the clock.  A generation response is the list
    of the texts of its candidates.  [time_sleep] is the pause of a delay
    that is not negative; [time.sleep] raises on a negative one, which
    [py_sleep] below has. *)
Class Backend (Env Store : Type) := {
  similarity_search :
    Store -> str -> Z -> Z -> Env -> result (list document) * Env;
  co_generate : gen_request -> Env -> result (list str) * Env;
  faiss_from_texts :
    list str -> list (str * str) -> Env -> result Store * Env;
  time_sleep : Z -> Env -> Env
}.

(** What the program does to the outside, in order. *)
Inductive event (Store : Type) :=
| EvSearch (store : Store) (query : str) (k fetch_k : Z)
| EvGenerate (req : gen_request)
| EvSleep (seconds : Z)
| EvBuild (texts : list str) (metas : list (str * str))
| EvTyping
| EvSend (content : option str) (embed : option (str * str))
         (view : option (list str)).
Arguments EvSearch {Store}.
Arguments EvGenerate {Store}.
Arguments EvSleep {Store}.
Arguments EvBuild {Store}.
Arguments EvTyping {Store}.
Arguments EvSend {Store}.

(** [class Session], app.py lines 153-158 *)
Record session (Store : Type) := {
  vector : option Store;
  history : list str;
  roles : list str;
  role : option str
}.
Arguments vector {Store}.
Arguments history {Store}.
Arguments roles {Store}.
Arguments role {Store}.

(** [Session()] *)
Definition new_session {Store} : session Store :=
  {| vector := None; history := []; roles := []; role := None |}.

(** The state a handler runs in: the global [sessions] dict, the
    environment of the backends and the events so far. *)
Record state (Env Store : Type) := {
  sessions : gmap Z (session Store);
  env : Env;
  trace : list (event Store)
}.
Arguments sessions {Env Store}.
Arguments env {Env Store}.
Arguments trace {Env Store}.

Section Effects.
Context {Env Store : Type}.

(** A computation that reads and writes the state and returns or
    raises; the state at a raise is the state reached so far. *)
Definition M (A : Type) : Type :=
  state Env Store -> result A * state Env Store.

Definition ret {A} (a : A) : M A := fun st => (Ok a, st).
Definition raise {A} (e : exn) : M A := fun st => (Raise e, st).
Definition bind {A B} (c : M A) (k : A -> M B) : M B :=
  fun st =>
    match c st with
    | (Ok a, st') => k a st'
    | (Raise e, st') => (Raise e, st')
    end.

(** [try: c except Exception as e: h e] *)
Definition try_except {A} (c : M A) (h : exn -> M A) : M A :=
  fun st =>
    match c st with
    | (Ok a, st') => (Ok a, st')
    | (Raise e, st') => h e st'
    end.

(** An event of the platform layer (the typing indicator, a message
    sent), recorded in the trace.  The platform is taken to accept it:
    the trace says what the handler sends, not that Discord delivers
    it. *)
Definition emit (ev : event Store) : M unit :=
  fun st =>
    (Ok tt, {| sessions := sessions st; env := env st;
               trace := trace st ++ [ev] |}).

(** A call to a backend: the event is recorded, the environment
    moves, the answer is returned or raised. *)
Definition call {A} (ev : event Store) (f : Env -> result A * Env)
  : M A :=
  fun st =>
    let '(r, env') := f (env st) in
    (r, {| sessions := sessions st; env := env';
           trace := trace st ++ [ev] |}).

(** A pure computation that may raise, run in the monad. *)
Definition lift {A} (r : result A) : M A := fun st => (r, st).

Definition get_sessions : M (gmap Z (session Store)) :=
  fun st => (Ok (sessions st), st).

Definition put_sessions (ss : gmap Z (session Store)) : M unit :=
  fun st => (Ok tt, {| sessions := ss; env := env st; trace := trace st |}).

End Effects.

Notation "'let*' x ':=' c 'in' k" := (bind c (fun x => k))
  (at level 10, x name, c at level 100, k at level 200).

(** ** Reply generation *)

Section Pipeline.
Context `{Tokenizer} `{Runtime} {Env Store : Type} `{Backend Env Store}.

Local Abbreviation Act := (M (Env:=Env) (Store:=Store)).

Definition nl : str := [10%N].
Definition dquote : str := [34%N].

(** The few-shot block of [gen_reply], app.py lines 107-116. *)
Definition examples (role : str) : str :=
  strip
    (nl ++ lit "You: Hey, how's it going? " ++ [128522%N] ++ nl
     ++ role ++ lit ": I'm good, thanks! You?" ++ nl
     ++ nl
     ++ lit "You: When is the meeting?" ++ nl
     ++ role ++ lit ": Around 3pm, don't be late!" ++ nl
     ++ nl
     ++ lit "You: Can you send me the report?" ++ nl
     ++ role ++ lit ": Sure thing, I'll send it shortly." ++ nl).

(** The prompt of [gen_reply], app.py lines 118-133. *)
Definition build_prompt (user_msg : str) (ctx history : list str)
           (role : str) : str :=
  strip
    (nl ++ lit "You are " ++ dquote ++ role ++ dquote
     ++ lit ", replying on WhatsApp. Match the style, wording, emojis, punctuation, and length of the chat excerpts below."
     ++ nl
     ++ lit "Be concise and natural." ++ nl
     ++ nl
     ++ lit "Examples:" ++ nl
     ++ examples role ++ nl
     ++ nl
     ++ lit "Chat excerpts:" ++ nl
     ++ join nl ctx ++ nl
     ++ nl
     ++ lit "Recent conversation:" ++ nl
     ++ (match history with
         | [] => lit "No recent conversation."
         | _ => join nl (format_history_for_prompt
                           history (lit "You") role 3)
         end) ++ nl
     ++ nl
     ++ lit "User: " ++ user_msg ++ nl
     ++ role ++ lit ":" ++ nl).

Definition make_request (prompt role : str) : gen_request :=
  {| g_model := lit "command-r-plus";
     g_prompt := prompt;
     g_max_tokens := 120;
     g_temperature := QArith_base.Qmake 1 2;
     g_k := 1;
     g_stop_sequences := [nl ++ lit "You:"; nl ++ role ++ lit ":"] |}.

(** The body of the [try], app.py lines 137-145: the call, then
    [response.generations[0].text.strip()]. *)
Definition attempt_generate (req : gen_request) : Act str :=
  let* generations := call (EvGenerate req) (co_generate req) in
  match generations with
  | [] => raise IndexError
  | first :: _ => ret (strip first)
  end.

(** [time.sleep(delay)]: a negative delay raises [ValueError]. *)
Definition py_sleep (delay : Z) : Act unit :=
  if delay <? 0 then raise ValueError
  else call (EvSleep delay) (fun w => (Ok tt, time_sleep delay w)).

(** The loop [for attempt in range(retries)], app.py lines 135-150,
    with [remaining] iterations left from index [attempt] on.  A loop
    that ends without a [return] makes the function return [None]. *)
Fixpoint generate_loop (req : gen_request) (retries delay : Z)
         (remaining : nat) (attempt : Z) : Act (option str) :=
  match remaining with
  | O => ret None
  | S remaining' =>
      try_except
        (let* text := attempt_generate req in ret (Some text))
        (fun e =>
           if attempt <? retries - 1
           then let* _ := py_sleep delay in
                generate_loop req retries delay remaining' (attempt + 1)
           else raise e)
  end.

(** The context lines of [gen_reply], app.py lines 97-104: the
    retrieved lines, then the recent history, trimmed to 1800 tokens. *)
Definition assemble_context (similar : list document)
           (history : list str) (role : str) : result (list str) :=
  let ctx := (fun d => meta_sender d ++ lit ": " ++ page_content d)
               <$> similar in
  let recent_conv :=
    format_history_for_prompt history (lit "You") role 6 in
  let ctx := ctx ++ recent_conv in
  limit_context ctx 1800.

(** The request every attempt of one [gen_reply] call sends, for the
    context lines [ctx]. *)
Definition reply_request (user_msg : str) (ctx history : list str)
           (role : str) : gen_request :=
  make_request (build_prompt user_msg ctx history role) role.

(** [gen_reply], app.py lines 94-150 *)
Definition gen_reply (user_msg : str) (store : Store)
           (history : list str) (role : str) (retries delay : Z)
  : Act (option str) :=
  let* similar := call (EvSearch store user_msg 8 10)
                       (similarity_search store user_msg 8 10) in
  let* ctx := lift (assemble_context similar history role) in
  generate_loop (reply_request user_msg ctx history role)
                retries delay (Z.to_nat retries) 0.

End Pipeline.

(** ** Sessions and the message handler *)

(** An uploaded file: its name and what [json.loads(await att.read())]
    gives for it. *)
Record attachment := {
  filename : str;
  loaded : result json
}.

(** What [on_message] reads of a [discord.Message]:
    [message.author == bot.user], whether the channel is a [DMChannel],
    [message.author.id], the attachments and the text. *)
Record message := {
  from_bot : bool;
  in_dm : bool;
  author_id : Z;
  attachments : list attachment;
  content : str
}.

(** Python's order on strings: lexicographic on code points. *)
Fixpoint str_leb (a b : str) : bool :=
  match a, b with
  | [], _ => true
  | _ :: _, [] => false
  | x :: a', y :: b' =>
      if (x <? y)%N then true
      else if (y <? x)%N then false
      else str_leb a' b'
  end.

Section Handler.
Context `{Tokenizer} `{Runtime} {Env Store : Type} `{Backend Env Store}.

Local Abbreviation Act := (M (Env:=Env) (Store:=Store)).

Definition msg_processing : str := [9203%N] ++ lit " Processing chat" ++ [8230%N].
Definition msg_no_usable : str := [10060%N] ++ lit " No usable lines found in chat.".
Definition msg_need_json : str :=
  [10060%N] ++ lit " Please upload a `.json` WhatsApp export file.".
Definition msg_guidance : str :=
  [128229%N] ++ lit " Upload your WhatsApp chat JSON and pick a role first.".
Definition msg_error (e : exn) : str :=
  [9888%N; 65039%N] ++ lit " Error: " ++ exn_str e.

(** [await message.channel.send(text)] *)
Definition send_text (text : str) : Act unit :=
  emit (EvSend (Some text) None None).

(** [d.setdefault(uid, fresh)] on the sessions dict. *)
Definition dict_setdefault (uid : Z) (fresh : session Store)
           (ss : gmap Z (session Store)) : gmap Z (session Store) :=
  match ss !! uid with
  | Some _ => ss
  | None => <[uid := fresh]> ss
  end.

(** [sessions.setdefault(uid, Session())] *)
Definition setdefault_session (uid : Z) : Act unit :=
  let* ss := get_sessions in
  put_sessions (dict_setdefault uid new_session ss).

(** [session = sessions[uid]]: the session object is the entry of the
    dict; reading one of its attributes reads the entry. *)
Definition read_session (uid : Z) : Act (session Store) :=
  let* ss := get_sessions in
  match ss !! uid with
  | Some s => ret s
  | None => raise (KeyError (JInt uid))
  end.

(** An attribute assignment or an in-place update on the session
    object of [uid]. *)
Definition modify_session (uid : Z)
           (f : session Store -> session Store) : Act unit :=
  let* ss := get_sessions in put_sessions (alter f uid ss).

Definition set_vector (v : option Store) (s : session Store) :=
  {| vector := v; history := history s; roles := roles s; role := role s |}.
Definition set_roles (rs : list str) (s : session Store) :=
  {| vector := vector s; history := history s; roles := rs; role := role s |}.
Definition set_role (r : option str) (s : session Store) :=
  {| vector := vector s; history := history s; roles := roles s; role := r |}.
Definition set_history (h : list str) (s : session Store) :=
  {| vector := vector s; history := h; roles := roles s; role := role s |}.
(** [session.history.append(entry)] *)
Definition append_history (entry : str) (s : session Store) :=
  set_history (history s ++ [entry]) s.

(** [build_vector], app.py lines 61-74: the texts and the metadata of
    the documents, handed to [FAISS.from_texts]. *)
Definition build_vector (msgs : list canonical) : Act Store :=
  let texts := c_message <$> msgs in
  let metas := (fun m => (c_sender m, c_role m)) <$> msgs in
  call (EvBuild texts metas) (faiss_from_texts texts metas).

(** [sorted({m["role"] for m in cleaned})] *)
Definition sorted_roles (cleaned : list canonical) : list str :=
  merge_sort (fun a b => str_leb a b) (remove_dups (c_role <$> cleaned)).

(** The body for one [.json] attachment, app.py lines 206-225. *)
Definition process_upload (uid : Z) (att : attachment) : Act unit :=
  let* _ := send_text msg_processing in
  let* raw_data := lift (loaded att) in
  let* cleaned := lift (clean_messages raw_data) in
  match cleaned with
  | [] => send_text msg_no_usable
  | _ :: _ =>
      let* v := build_vector cleaned in
      let* _ := modify_session uid (set_vector (Some v)) in
      let* _ := modify_session uid (set_roles (sorted_roles cleaned)) in
      let* _ := modify_session uid (set_role None) in
      let* _ := modify_session uid (set_history []) in
      let* s := read_session uid in
      emit (EvSend None
                   (Some (lit "Chat processed", lit "Select a persona:"))
                   (Some (roles s)))
  end.

(** The loop over the attachments, app.py lines 204-227: the first
    [.json] file is processed and ends the handler. *)
Fixpoint upload_loop (uid : Z) (atts : list attachment) : Act unit :=
  match atts with
  | [] => send_text msg_need_json
  | att :: rest =>
      if endswith (filename att) (lit ".json")
      then process_upload uid att
      else upload_loop uid rest
  end.

(** The attachment the loop stops at, if any. *)
Definition first_json (atts : list attachment) : option attachment :=
  find (fun att => endswith (filename att) (lit ".json")) atts.

(** The session an upload that goes through leaves: new index, roles
    of the transcript, no persona, no history. *)
Definition replaced_session (v : Store) (cleaned : list canonical)
  : session Store :=
  {| vector := Some v; history := [];
     roles := sorted_roles cleaned; role := None |}.

(** An f-string field holding the value of [gen_reply]. *)
Definition format_reply (reply : option str) : str :=
  match reply with
  | Some text => text
  | None => lit "None"
  end.

(** The chat path, app.py lines 229-249. *)
Definition chat (uid : Z) (msg : message) : Act unit :=
  let* s := read_session uid in
  match vector s, role s with
  | Some store, Some ((_ :: _) as persona) =>
      let* _ := modify_session uid
                  (append_history (lit "You: " ++ content msg)) in
      let* _ := emit EvTyping in
      let* s := read_session uid in
      let* outcome :=
        try_except
          (let* reply := gen_reply (content msg) store (history s)
                                   persona 3 4 in
           ret (Some reply))
          (fun e => let* _ := send_text (msg_error e) in ret None) in
      match outcome with
      | None => ret tt
      | Some reply =>
          let* _ := modify_session uid
                      (append_history
                         (persona ++ lit ": " ++ format_reply reply)) in
          emit (EvSend reply None None)
      end
  | _, _ => send_text msg_guidance
  end.

(** [on_message], app.py lines 194-249 *)
Definition on_message (msg : message) : Act unit :=
  if from_bot msg || negb (in_dm msg) then ret tt
  else
    let uid := author_id msg in
    let* _ := setdefault_session uid in
    match attachments msg with
    | _ :: _ => upload_loop uid (attachments msg)
    | [] => chat uid msg
    end.

(** [RoleSelect.callback], app.py lines 170-176: the user picks a
    persona. *)
Definition role_select_callback (uid : Z) (value : str) : Act unit :=
  let* _ := read_session uid in
  let* _ := modify_session uid (set_role (Some value)) in
  emit (EvSend (Some ([9989%N] ++ lit " Role set to **" ++ value
                      ++ lit "**. Start chatting!")) None None).

End Handler.

(** ** Concrete collaborators for the examples *)

(** A runtime that renders scalars as Python does. *)
Definition example_runtime : Runtime :=
  {| py_str := fun v =>
       match v with
       | JNull => lit "None"
       | JBool true => lit "True"
       | JBool false => lit "False"
       | JInt z => lit (pretty.pretty z)
       | JStr s => s
       | JList _ => lit "[...]"
       | JDict _ => lit "{...}"
       end;
     exn_str := fun e =>
       match e with
       | KeyError _ => lit "key"
       | IndexError => lit "list index out of range"
       | AttributeError => lit "attribute"
       | TypeError => lit "type"
       | ValueError => lit "value"
       | ServiceError _ => lit "service unavailable"
       end |}.

(** A backend whose environment counts the generation calls made so far:
    the first [failures] calls fail, each with its own error, the later
    ones return one candidate; retrieval finds one line and the index
    build succeeds. *)
Definition flaky_backend (failures : nat) : Backend nat unit :=
  {| similarity_search := fun _ _ _ _ n =>
       (Ok [ {| page_content := lit "see you at 3";
                meta_sender := lit "Alice Smith";
                meta_role := lit "Alice" |} ], n);
     co_generate := fun _ n =>
       (if (n <? failures)%nat then Raise (ServiceError (N.of_nat n))
        else Ok [lit "  on my way!  "; lit "other"],
        S n);
     faiss_from_texts := fun _ _ n => (Ok tt, n);
     time_sleep := fun _ n => n |}.

(** A backend whose index build fails. *)
Definition no_index_backend : Backend nat unit :=
  {| similarity_search := fun _ _ _ _ n => (Raise (ServiceError 7), n);
     co_generate := fun _ n => (Raise (ServiceError 8), n);
     faiss_from_texts := fun _ _ n => (Raise (ServiceError 9), n);
     time_sleep := fun _ n => n |}.

(** The state before anything happened. *)
Definition empty_state : state nat unit :=
  {| sessions := ∅; env := 0%nat; trace := [] |}.

(** A session with an index but no persona yet, and one ready to chat. *)
Definition indexed_session : session unit :=
  {| vector := Some tt; history := []; roles := [lit "Alice"; lit "Bob"];
     role := None |}.

Definition chatting_session : session unit :=
  {| vector := Some tt; history := [lit "You: hi"; lit "Alice: hey"];
     roles := [lit "Alice"; lit "Bob"]; role := Some (lit "Alice") |}.

(** The state in which user 7 has the session [s]. *)
Definition state_of (s : session unit) : state nat unit :=
  {| sessions := {[ 7 := s ]}; env := 0%nat; trace := [] |}.

(** A private message without attachments. *)
Definition plain_message (uid : Z) (text : str) : message :=
  {| from_bot := false; in_dm := true; author_id := uid;
     attachments := []; content := text |}.

(** A private message carrying one file. *)
Definition upload_message (uid : Z) (name : str) (data : result json)
  : message :=
  {| from_bot := false; in_dm := true; author_id := uid;
     attachments := [ {| filename := name; loaded := data |} ];
     content := [] |}.

(** ** Flattening a nested transcript ([src/flatten_chat.py])

    The script reads a JSON object of dates, each an object of times,
    each a list of messages, and writes the list of flat records the bot
    is given.  The loops between [json.load] and [json.dump] are
    modelled; an exception in them ends the script before anything is
    written.  [json.dump] itself is not modelled: [Ok flat] says that the
    loops have built the list [flat], not that the file was written (the
    dump raises on a string that holds a lone surrogate, for one). *)

(** [v.items()]: only objects have the method. *)
Definition dict_items (v : json) : result (list (str * json)) :=
  match v with
  | JDict d => Ok d
  | _ => Raise AttributeError
  end.

(** [message.get(k)] of a message, [None] (JSON null) when absent. *)
Definition get_or_null (message : json) (k : str) : result json :=
  match message with
  | JDict d => Ok (default JNull (dict_get d k))
  | _ => Raise AttributeError
  end.

(** [time.replace('\u202f', ' ').strip()], flatten_chat.py line 15. *)
Definition clean_time (time : str) : str :=
  strip ((fun c => if (c =? 8239)%N then 32%N else c) <$> time).

(** The record appended for one message, flatten_chat.py lines 12-17. *)
Definition flat_record (date time : str) (message : json) : result json :=
  match get_or_null message (lit "sender") with
  | Raise e => Raise e
  | Ok sender =>
      match get_or_null message (lit "message") with
      | Raise e => Raise e
      | Ok text =>
          Ok (JDict [(lit "date", JStr date);
                     (lit "time", JStr (clean_time time));
                     (lit "sender", sender);
                     (lit "message", text)])
      end
  end.

(** The innermost loop, over the messages of one time. *)
Fixpoint flatten_messages (date time : str) (messages : list json)
         (flat_data : list json) : result (list json) :=
  match messages with
  | [] => Ok flat_data
  | message :: rest =>
      match flat_record date time message with
      | Raise e => Raise e
      | Ok r => flatten_messages date time rest (flat_data ++ [r])
      end
  end.

(** The loop over [times.items()] of one date. *)
Fixpoint flatten_times (date : str) (times : list (str * json))
         (flat_data : list json) : result (list json) :=
  match times with
  | [] => Ok flat_data
  | (time, messages) :: rest =>
      match iterate messages with
      | Raise e => Raise e
      | Ok ms =>
          match flatten_messages date time ms flat_data with
          | Raise e => Raise e
          | Ok flat_data => flatten_times date rest flat_data
          end
      end
  end.

(** The loop over [nested_data.items()]. *)
Fixpoint flatten_dates (dates : list (str * json)) (flat_data : list json)
  : result (list json) :=
  match dates with
  | [] => Ok flat_data
  | (date, times) :: rest =>
      match dict_items times with
      | Raise e => Raise e
      | Ok ts =>
          match flatten_times date ts flat_data with
          | Raise e => Raise e
          | Ok flat_data => flatten_dates rest flat_data
          end
      end
  end.

(** The list the script has built when it reaches [json.dump],
    flatten_chat.py lines 8-17. *)
Definition flatten_chat (nested_data : json) : result (list json) :=
  match dict_items nested_data with
  | Raise e => Raise e
  | Ok dates => flatten_dates dates []
  end.

(** ** Notions used to describe the normalizer *)

(** A string of whitespace only (or empty): [not s.strip()]. *)
Definition blank (s : str) : bool := forallb isspace s.

(** The two string fields of a record, when it has both. *)
Definition fields (m : json) : option (str * str) :=
  match m with
  | JDict d =>
      match dict_get d k_sender, dict_get d k_message with
      | Some (JStr s), Some (JStr t) => Some (s, t)
      | _, _ => None
      end
  | _ => None
  end.

(** A message text that passes the test of app.py line 47. *)
Definition usable (t : str) : bool :=
  negb (bool_decide (t = [])) && negb (bool_decide (t = media_omitted)).

(** The dedup key of two string fields, app.py line 49. *)
Definition raw_key (r : str * str) : str := r.1 ++ lit ":" ++ r.2.

(** The entry built from two string fields, app.py lines 53-58; there is
    none when the trimmed sender has no first word. *)
Definition canonical_of (r : str * str) : option canonical :=
  match split (strip r.1) with
  | [] => None
  | role :: _ =>
      Some {| c_sender := strip r.1; c_role := role; c_message := strip r.2 |}
  end.

(** A record the normalizer can process: an object whose sender is a
    string with a character that is not whitespace and whose message is
    absent, null or a string. *)
Definition well_formed (m : json) : bool :=
  match m with
  | JDict d =>
      match dict_get d k_sender with
      | Some (JStr s) => negb (blank s)
      | _ => false
      end
      && match dict_get d k_message with
         | None | Some JNull | Some (JStr _) => true
         | _ => false
         end
  | _ => false
  end.

(** The messages of a nested transcript in document order, each with
    its date and time: what the three loops of the script visit. *)
Definition time_leaves (times : list (str * json))
  : list (str * json) :=
  flat_map (fun '(time, messages) =>
              match iterate messages with
              | Ok ms => (fun m => (time, m)) <$> ms
              | Raise _ => []
              end) times.

Definition nested_leaves (dates : list (str * json))
  : list (str * (str * json)) :=
  flat_map (fun '(date, times) =>
              match dict_items times with
              | Ok ts => (fun leaf => (date, leaf)) <$> time_leaves ts
              | Raise _ => []
              end) dates.

(** A nested transcript as the converter writes it: dates holding
    objects of times, times holding lists of records the normalizer can
    process. *)
Definition nested_well_formed (nested_data : json) : bool :=
  match nested_data with
  | JDict dates =>
      forallb (fun '(_, times) =>
                 match times with
                 | JDict ts =>
                     forallb (fun '(_, messages) =>
                                match messages with
                                | JList ms => forallb well_formed ms
                                | _ => false
                                end) ts
                 | _ => false
                 end) dates
  | _ => false
  end.

(** The loop of [clean_messages] with its whole final state, the set
    [seen] included. *)
Fixpoint clean_run `{Runtime} (ms : list json)
         (st : gset str * list canonical)
  : result (gset str * list canonical) :=
  match ms with
  | [] => Ok st
  | m :: ms' =>
      match clean_step m st with
      | Raise e => Raise e
      | Ok st' => clean_run ms' st'
      end
  end.

(** ** Notions used to describe the retry loop *)

(** The exception an attempt ends with, if any: the error of the
    service, or [IndexError] for a response without candidates. *)
Definition attempt_error (r : result (list str)) : option exn :=
  match r with
  | Raise e => Some e
  | Ok [] => Some IndexError
  | Ok (_ :: _) => None
  end.



Definition is_generate {Store : Type} (ev : event Store) : bool :=
  match ev with EvGenerate _ => true | _ => false end.

Definition is_sleep {Store : Type} (ev : event Store) : bool :=
  match ev with EvSleep _ => true | _ => false end.

Definition is_search {Store : Type} (ev : event Store) : bool :=
  match ev with EvSearch _ _ _ _ => true | _ => false end.

(** The confirmation [RoleSelect.callback] sends, app.py line 174. *)
Definition msg_role_set (value : str) : str :=
  [9989%N] ++ lit " Role set to **" ++ value ++ lit "**. Start chatting!".

(** A small nested transcript: one date, two times, the second message
    without text. *)
Definition example_nested : list (str * json) :=
  [(lit "01/01/2024",
    JDict [(lit "10:00", JList [record (lit "Alice") (lit "hi")]);
           (lit "10:05", JList [JDict [(lit "sender", JStr (lit "Bob"))]])])].

(** * Properties *)

(** ** The context trimmer *)

Section TokenContextFacts.
Context `{Tokenizer}.

Lemma estimate_tokens_nonneg text n : estimate_tokens text = Ok n → 0 <= n.
Proof.
  unfold estimate_tokens. destruct (encode text); intros [= <-]; lia.
Qed.

Lemma accepted_estimate text :
  accepted text = true → ∃ n, estimate_tokens text = Ok n.
Proof.
  unfold accepted, estimate_tokens.
  destruct (encode text); [by eexists|done].
Qed.

Lemma estimate_tokens_raise text e :
  estimate_tokens text = Raise e → encode text = Raise e.
Proof. unfold estimate_tokens. by destruct (encode text); intros [= <-]. Qed.

Lemma total_tokens_cons ln l n t :
  estimate_tokens ln = Ok n → total_tokens l = Ok t →
  total_tokens (ln :: l) = Ok (n + t).
Proof. intros Hn Ht. cbn [total_tokens]. by rewrite Hn, Ht. Qed.

Lemma total_tokens_cons_inv ln l t :
  total_tokens (ln :: l) = Ok t →
  ∃ n t', estimate_tokens ln = Ok n ∧ total_tokens l = Ok t' ∧ t = n + t'.
Proof.
  cbn [total_tokens].
  destruct (estimate_tokens ln) as [n|e], (total_tokens l) as [t'|e'];
    try done.
  intros [= <-]. by exists n, t'.
Qed.

Lemma total_tokens_app l1 l2 t1 t2 :
  total_tokens l1 = Ok t1 → total_tokens l2 = Ok t2 →
  total_tokens (l1 ++ l2) = Ok (t1 + t2).
Proof.
  revert t1. induction l1 as [|ln l1 IH]; intros t1 H1 H2.
  - injection H1 as <-. cbn [app]. by rewrite H2, Z.add_0_l.
  - apply total_tokens_cons_inv in H1 as (n & t' & Hn & Ht' & ->).
    rewrite <- app_comm_cons, <- Z.add_assoc.
    apply total_tokens_cons; [done|]. by apply IH.
Qed.

Lemma total_tokens_app_inv l1 l2 t :
  total_tokens (l1 ++ l2) = Ok t →
  ∃ t1 t2, total_tokens l1 = Ok t1 ∧ total_tokens l2 = Ok t2 ∧ t = t1 + t2.
Proof.
  revert t. induction l1 as [|ln l1 IH]; intros t Ht.
  - exists 0, t. by repeat split.
  - rewrite <- app_comm_cons in Ht.
    apply total_tokens_cons_inv in Ht as (n & t' & Hn & Ht' & ->).
    destruct (IH _ Ht') as (t1 & t2 & H1 & H2 & ->).
    exists (n + t1), t2. repeat split; [|done|lia].
    by apply total_tokens_cons.
Qed.

Lemma total_tokens_nonneg l t : total_tokens l = Ok t → 0 <= t.
Proof.
  revert t. induction l as [|ln l IH]; intros t Ht.
  - injection Ht as <-. lia.
  - apply total_tokens_cons_inv in Ht as (n & t' & Hn & Ht' & ->).
    apply estimate_tokens_nonneg in Hn. apply IH in Ht'. lia.
Qed.

Lemma total_tokens_single ln n :
  estimate_tokens ln = Ok n → total_tokens [ln] = Ok n.
Proof.
  intros Hn. replace n with (n + 0) by lia.
  by apply total_tokens_cons.
Qed.

Lemma total_tokens_rev l t :
  total_tokens l = Ok t → total_tokens (rev l) = Ok t.
Proof.
  revert t. induction l as [|ln l IH]; intros t Ht; [done|].
  apply total_tokens_cons_inv in Ht as (n & t' & Hn & Ht' & ->).
  simpl. rewrite Z.add_comm.
  apply total_tokens_app; [by apply IH|by apply total_tokens_single].
Qed.

(** What the loop has done when it returns: it has taken a prefix of the
    reversed lines, the lines taken are within what was left of the
    budget, and the line it stopped at, if any, would exceed the
    budget. *)
Lemma limit_loop_spec max_tokens rlines total out res :
  limit_loop max_tokens rlines total out = Ok res →
  ∃ taken rest t,
    rlines = taken ++ rest
    ∧ res = out ++ taken
    ∧ total_tokens taken = Ok t
    ∧ (taken = [] ∨ total + t <= max_tokens)
    ∧ match rest with
      | [] => True
      | ln :: _ =>
          ∃ n, estimate_tokens ln = Ok n ∧ max_tokens < total + t + n
      end.
Proof.
  revert total out.
  induction rlines as [|ln rest IH]; intros total out Hloop.
  - injection Hloop as <-. exists [], [], 0.
    split_and!; [done|by rewrite app_nil_r|done|by left|done].
  - cbn [limit_loop] in Hloop.
    destruct (estimate_tokens ln) as [n|e] eqn:Hn; [|done].
    destruct (Z.gtb_spec (total + n) max_tokens) as [Hover|Hfits].
    + injection Hloop as <-. exists [], (ln :: rest), 0.
      split_and!; [done|by rewrite app_nil_r|done|by left|].
      exists n. split; [done|lia].
    + destruct (IH _ _ Hloop)
        as (taken & rest' & t & -> & -> & Ht & Hsum & Hstop).
      exists (ln :: taken), rest', (n + t).
      rewrite <- app_assoc. repeat split.
      * by apply total_tokens_cons.
      * right. destruct Hsum as [->|Hsum]; [|lia].
        injection Ht as <-. lia.
      * destruct rest' as [|ln' rest']; [done|].
        destruct Hstop as (n' & Hn' & Hover).
        exists n'. split; [done|lia].
Qed.

(** Conversely, the loop returns what such a description says. *)
Lemma limit_loop_intro max_tokens taken rest total out t :
  total_tokens taken = Ok t →
  taken = [] ∨ total + t <= max_tokens →
  match rest with
  | [] => True
  | ln :: _ => ∃ n, estimate_tokens ln = Ok n ∧ max_tokens < total + t + n
  end →
  limit_loop max_tokens (taken ++ rest) total out = Ok (out ++ taken).
Proof.
  revert total out t.
  induction taken as [|ln taken IH]; intros total out t Ht Hsum Hstop.
  - injection Ht as <-. rewrite app_nil_r.
    destruct rest as [|ln rest]; [done|].
    destruct Hstop as (n & Hn & Hover).
    cbn [app limit_loop]. rewrite Hn.
    by destruct (Z.gtb_spec (total + n) max_tokens); [|lia].
  - apply total_tokens_cons_inv in Ht as (n & t' & Hn & Ht' & ->).
    destruct Hsum as [|Hsum]; [done|].
    pose proof (total_tokens_nonneg _ _ Ht').
    pose proof (estimate_tokens_nonneg _ _ Hn).
    rewrite <- app_comm_cons. cbn [limit_loop]. rewrite Hn.
    destruct (Z.gtb_spec (total + n) max_tokens); [lia|].
    rewrite (IH (total + n) (out ++ [ln]) t'); [|done|right; lia|].
    + by rewrite <- app_assoc.
    + destruct rest as [|ln' rest]; [done|].
      destruct Hstop as (n' & Hn' & Hover).
      exists n'. split; [done|lia].
Qed.

(** The loop returns when the tokenizer accepts every line. *)
Lemma limit_loop_returns max_tokens rlines total out :
  Forall (fun ln => accepted ln = true) rlines →
  ∃ res, limit_loop max_tokens rlines total out = Ok res.
Proof.
  intros Hall. revert total out.
  induction Hall as [|ln rest Hln _ IH]; intros total out; [by eexists|].
  cbn [limit_loop].
  destruct (accepted_estimate _ Hln) as [n ->].
  destruct (total + n >? max_tokens); [by eexists|apply IH].
Qed.

(** An exception of the loop is the tokenizer's, on one of the lines. *)
Lemma limit_loop_raise max_tokens rlines total out e :
  limit_loop max_tokens rlines total out = Raise e →
  ∃ ln, ln ∈ rlines ∧ encode ln = Raise e.
Proof.
  revert total out.
  induction rlines as [|ln rest IH]; intros total out Hloop; [done|].
  cbn [limit_loop] in Hloop.
  destruct (estimate_tokens ln) as [n|e'] eqn:Hn.
  - destruct (total + n >? max_tokens); [done|].
    destruct (IH _ _ Hloop) as (ln' & Hin & Hraise).
    exists ln'. split; [by right|done].
  - injection Hloop as ->. exists ln. split; [by left|].
    by apply estimate_tokens_raise.
Qed.

(** Under a smaller budget the loop returns too, no later. *)
Lemma limit_loop_mono m1 m2 rlines total out res2 :
  m1 <= m2 →
  limit_loop m2 rlines total out = Ok res2 →
  ∃ res1, limit_loop m1 rlines total out = Ok res1 ∧ res1 `prefix_of` res2.
Proof.
  intros Hle. revert total out.
  induction rlines as [|ln rest IH]; intros total out Hloop.
  - injection Hloop as <-. by exists out.
  - cbn [limit_loop] in *.
    destruct (estimate_tokens ln) as [n|e]; [|done].
    destruct (Z.gtb_spec (total + n) m2) as [Hover|Hfits].
    + injection Hloop as <-. exists out.
      by destruct (Z.gtb_spec (total + n) m1); [|lia].
    + destruct (Z.gtb_spec (total + n) m1) as [Hover1|Hfits1];
        [|by apply IH].
      exists out. split; [done|].
      apply limit_loop_spec in Hloop as (taken & _ & _ & _ & -> & _).
      rewrite <- app_assoc. by eexists.
Qed.

(** On fewer lines the loop returns too, no later. *)
Lemma limit_loop_app max_tokens rl1 rl2 total out res :
  limit_loop max_tokens (rl1 ++ rl2) total out = Ok res →
  ∃ res1, limit_loop max_tokens rl1 total out = Ok res1
          ∧ res1 `prefix_of` res.
Proof.
  revert total out.
  induction rl1 as [|ln rl1 IH]; intros total out Hloop.
  - exists out. split; [done|].
    apply limit_loop_spec in Hloop as (taken & _ & _ & _ & -> & _).
    by eexists.
  - rewrite <- app_comm_cons in Hloop. cbn [limit_loop] in *.
    destruct (estimate_tokens ln) as [n|e]; [|done].
    destruct (total + n >? max_tokens); [|by apply IH].
    injection Hloop as <-. by exists out.
Qed.

Lemma prefix_rev_suffix (l1 l2 : list str) :
  l1 `prefix_of` l2 → rev l1 `suffix_of` rev l2.
Proof. intros [k ->]. rewrite rev_app_distr. by eexists. Qed.

(** [limit_context] returns [out] exactly when [out] is what is left of
    the lines after some are dropped in front, counts within the budget
    unless it is empty, and the last line dropped would exceed the
    budget. *)
Lemma limit_context_ok lines max_tokens out :
  limit_context lines max_tokens = Ok out ↔
  ∃ dropped t,
    lines = dropped ++ out
    ∧ total_tokens out = Ok t
    ∧ (out = [] ∨ t <= max_tokens)
    ∧ ∀ pre ln, dropped = pre ++ [ln] →
                ∃ n, estimate_tokens ln = Ok n ∧ max_tokens < t + n.
Proof.
  unfold limit_context. split.
  - destruct (limit_loop max_tokens (rev lines) 0 []) as [res|e] eqn:Hloop;
      [|done].
    intros [= <-].
    apply limit_loop_spec in Hloop
      as (taken & rest & t & Hsplit & -> & Ht & Hsum & Hstop).
    apply (f_equal (@rev str)) in Hsplit.
    rewrite rev_involutive, rev_app_distr in Hsplit.
    exists (rev rest), t. cbn [app]. repeat split; [done| | |].
    + by apply total_tokens_rev.
    + destruct Hsum as [->|Hsum]; [by left|right; lia].
    + intros pre ln Hrest. apply (f_equal (@rev str)) in Hrest.
      rewrite rev_involutive, rev_app_distr in Hrest. cbn in Hrest.
      rewrite Hrest in Hstop. destruct Hstop as (n & Hn & Hover).
      exists n. split; [done|lia].
  - intros (dropped & t & -> & Ht & Hsum & Hstop).
    rewrite rev_app_distr.
    rewrite (limit_loop_intro max_tokens (rev out) (rev dropped) 0 [] t).
    + cbn [app]. by rewrite rev_involutive.
    + by apply total_tokens_rev.
    + destruct Hsum as [->|Hsum]; [by left|right; lia].
    + destruct dropped as [|ln pre _] using rev_ind; [done|].
      rewrite rev_app_distr. cbn.
      destruct (Hstop pre ln eq_refl) as (n & Hn & Hover).
      exists n. split; [done|lia].
Qed.

Lemma limit_context_returns lines max_tokens :
  Forall (fun ln => accepted ln = true) lines →
  ∃ out, limit_context lines max_tokens = Ok out.
Proof.
  intros Hall. unfold limit_context.
  destruct (limit_loop_returns max_tokens (rev lines) 0 []) as [res ->];
    [|by eexists].
  rewrite Forall_forall in *. intros ln Hin. apply Hall.
  apply list_elem_of_In. apply in_rev. by apply list_elem_of_In.
Qed.

Lemma limit_context_raise lines max_tokens e :
  limit_context lines max_tokens = Raise e →
  ∃ ln, ln ∈ lines ∧ encode ln = Raise e.
Proof.
  unfold limit_context.
  destruct (limit_loop max_tokens (rev lines) 0 []) as [res|e'] eqn:Hloop;
    [done|].
  intros [= ->]. apply limit_loop_raise in Hloop as (ln & Hin & Hraise).
  exists ln. split; [|done].
  apply list_elem_of_In. apply in_rev. by apply list_elem_of_In.
Qed.

Lemma limit_context_suffix lines max_tokens out :
  limit_context lines max_tokens = Ok out → out `suffix_of` lines.
Proof.
  intros Hout. apply limit_context_ok in Hout as (dropped & _ & -> & _).
  by exists dropped.
Qed.

Lemma limit_context_below_zero lines max_tokens out :
  max_tokens < 0 → limit_context lines max_tokens = Ok out → out = [].
Proof.
  intros Hneg Hout.
  apply limit_context_ok in Hout as (_ & t & _ & Ht & [->|Hsum] & _);
    [done|].
  apply total_tokens_nonneg in Ht. lia.
Qed.

Lemma limit_context_total lines max_tokens out :
  0 <= max_tokens → limit_context lines max_tokens = Ok out →
  ∃ t, total_tokens out = Ok t ∧ t <= max_tokens.
Proof.
  intros Hpos Hout.
  apply limit_context_ok in Hout as (_ & t & _ & Ht & Hsum & _).
  exists t. split; [done|].
  destruct Hsum as [->|Hsum]; [|done]. injection Ht as <-. lia.
Qed.

(** Every suffix of the lines that counts within the budget is kept
    whole. *)
Lemma limit_context_keeps lines max_tokens out suf t :
  limit_context lines max_tokens = Ok out →
  suf `suffix_of` lines → total_tokens suf = Ok t → t <= max_tokens →
  suf `suffix_of` out.
Proof.
  intros Hout [k Hk] Hsuf Hfits.
  apply limit_context_ok in Hout as (dropped & t0 & -> & Ht0 & _ & Hstop).
  symmetry in Hk. apply app_eq_inv in Hk.
  destruct Hk as [(k0 & -> & ->)|(k0 & Hd & ->)]; [by exists k0|].
  destruct k0 as [|ln k0 _] using rev_ind; [by exists []|].
  exfalso.
  destruct (Hstop (k ++ k0) ln) as (n & Hn & Hover);
    [by rewrite Hd, app_assoc|].
  apply total_tokens_app_inv in Hsuf as (t1 & t2 & Ht1 & Ht2 & ->).
  apply total_tokens_app_inv in Ht1 as (t3 & t4 & Ht3 & Ht4 & ->).
  rewrite (total_tokens_single _ _ Hn) in Ht4. injection Ht4 as <-.
  rewrite Ht0 in Ht2. injection Ht2 as <-.
  apply total_tokens_nonneg in Ht3. lia.
Qed.

Lemma limit_context_last_too_long pre ln n max_tokens out :
  estimate_tokens ln = Ok n → max_tokens < n →
  limit_context (pre ++ [ln]) max_tokens = Ok out → out = [].
Proof.
  intros Hn Hover. unfold limit_context.
  rewrite rev_app_distr. cbn [rev app limit_loop]. rewrite Hn.
  destruct (Z.gtb_spec (0 + n) max_tokens); [|lia].
  by intros [= <-].
Qed.

Lemma limit_context_maximal lines max_tokens out :
  0 <= max_tokens → limit_context lines max_tokens = Ok out →
  maximal_budget_suffix out lines max_tokens.
Proof.
  intros Hbudget Hout. split; [by eapply limit_context_suffix|].
  split; [by eapply limit_context_total|].
  intros suf t. by apply limit_context_keeps.
Qed.

End TokenContextFacts.

(** C1 (as amended).  For every list of context lines that the
    tokenizer accepts and every token budget, [limit_context] returns;
    under a non-negative budget the result is the maximal trailing
    suffix of the lines whose total token count is within the budget,
    in the original oldest-to-newest order; under a negative budget it
    is empty; and under every budget it is empty if the most recent line
    alone exceeds the budget. *)
Theorem limit_context_spec `{Tokenizer} (lines : list str) (max_tokens : Z) :
  Forall (fun ln => accepted ln = true) lines →
  ∃ out,
    limit_context lines max_tokens = Ok out
    ∧ (0 <= max_tokens → maximal_budget_suffix out lines max_tokens)
    ∧ (max_tokens < 0 → out = [])
    ∧ ∀ pre ln n, lines = pre ++ [ln] → estimate_tokens ln = Ok n →
                  max_tokens < n → out = [].
Proof.
  intros Hall.
  destruct (limit_context_returns lines max_tokens Hall) as [out Hout].
  exists out. split; [done|]. split_and!.
  - intros Hpos. by apply limit_context_maximal.
  - intros Hneg. by eapply limit_context_below_zero.
  - intros pre ln n -> Hn Hover.
    by eapply limit_context_last_too_long.
Qed.

Lemma limit_context_spec_witness :
  Forall (fun ln => @accepted char_tokenizer ln = true)
         [lit "aaaa"; lit "bb"; lit "c"]
  ∧ @limit_context char_tokenizer [lit "aaaa"; lit "bb"; lit "c"] 3
    = Ok [lit "bb"; lit "c"]
  ∧ @maximal_budget_suffix char_tokenizer
      [lit "bb"; lit "c"] [lit "aaaa"; lit "bb"; lit "c"] 3.
Proof.
  assert (Forall (fun ln => @accepted char_tokenizer ln = true)
                 [lit "aaaa"; lit "bb"; lit "c"]) as Hall
      by (repeat constructor).
  split; [exact Hall|].
  destruct (@limit_context_spec char_tokenizer
              [lit "aaaa"; lit "bb"; lit "c"] 3 Hall)
    as (out & Hout & Hmax & _).
  assert (out = [lit "bb"; lit "c"]) as ->
      by (vm_compute in Hout; injection Hout as <-; reflexivity).
  split; [reflexivity|]. apply Hmax. lia.
Defined.

(** C1 as stated fails on a line the tokenizer refuses: with a tokenizer
    that, like the one of the program, raises on a text holding the
    special token [<|endoftext|>], the entry the handler records for
    such a message makes [limit_context] raise under the budget of the
    program, so there is no output at all. *)
Lemma limit_context_special_token :
  @limit_context special_tokenizer
     [lit "Alice: hey"; lit "You: <|endoftext|>"] 1800
  = Raise ValueError
  ∧ ¬ ∃ out,
        @limit_context special_tokenizer
           [lit "Alice: hey"; lit "You: <|endoftext|>"] 1800 = Ok out
        ∧ @maximal_budget_suffix special_tokenizer out
            [lit "Alice: hey"; lit "You: <|endoftext|>"] 1800.
Proof.
  split; [reflexivity|].
  intros (out & Hout & _). vm_compute in Hout. discriminate.
Qed.

(** Under a negative budget nothing is kept, and the empty result, of
    total 0, is not within the budget. *)
Example limit_context_negative_budget :
  @limit_context char_tokenizer [lit "hello"] (-1) = Ok []
  ∧ ¬ @maximal_budget_suffix char_tokenizer [] [lit "hello"] (-1).
Proof.
  split; [reflexivity|].
  intros (_ & (t & Ht & Hle) & _). vm_compute in Ht.
  injection Ht as <-. lia.
Qed.

(** ** The history formatter *)

Lemma format_loop_map user_name role_name (hist acc : list str) :
  foldl (fun lines entry => lines ++ [format_entry user_name role_name entry])
        acc hist
  = acc ++ (format_entry user_name role_name <$> hist).
Proof.
  revert acc. induction hist as [|entry hist IH]; intros acc; simpl.
  - by rewrite app_nil_r.
  - by rewrite IH, <- app_assoc.
Qed.

Lemma format_history_map history user_name role_name limit :
  format_history_for_prompt history user_name role_name limit
  = format_entry user_name role_name <$> slice_from (- limit) history.
Proof. unfold format_history_for_prompt. by rewrite format_loop_map. Qed.

Lemma slice_from_last {A} (n : nat) (l : list A) :
  (0 < n)%nat →
  slice_from (- Z.of_nat n) l = drop (length l - n) l.
Proof.
  intros Hn. unfold slice_from.
  destruct (Z.ltb_spec (- Z.of_nat n) 0); [|lia].
  f_equal. lia.
Qed.

(** C8.  With a window of 6, the formatted block is the rewriting, entry
    by entry and in the same order, of the last [min n 6] entries of the
    history: an entry starting with "You:" is rendered with the display
    name, otherwise an entry starting with the persona's label is
    rendered with the persona name, and any other entry is kept as it
    is. *)
Theorem format_history_window (history : list str) (user_name role_name : str) :
  ∃ older recent,
    history = older ++ recent
    ∧ length recent = Nat.min (length history) 6
    ∧ format_history_for_prompt history user_name role_name 6
      = (fun entry =>
           if startswith entry (lit "You:")
           then user_name ++ lit ": " ++ strip (drop 4 entry)
           else if startswith entry (role_name ++ lit ":")
           then role_name ++ lit ": "
                ++ strip (drop (length role_name + 1) entry)
           else entry) <$> recent.
Proof.
  exists (take (length history - 6) history),
         (drop (length history - 6) history).
  split; [by rewrite take_drop|].
  split; [rewrite length_drop; lia|].
  rewrite format_history_map.
  change 6 with (Z.of_nat 6). rewrite slice_from_last by lia.
  reflexivity.
Qed.

(** Scenario 2 of the specification: seven entries, the last six kept. *)
Example format_history_seven :
  format_history_for_prompt
    [lit "1"; lit "You: 2 "; lit "Bob:3"; lit "4"; lit "5"; lit "6"; lit "7"]
    (lit "Me") (lit "Bob") 6
  = [lit "Me: 2"; lit "Bob: 3"; lit "4"; lit "5"; lit "6"; lit "7"].
Proof. reflexivity. Qed.

(** ** The normalizer *)

Section NormalizerFacts.
Context `{Runtime}.

Lemma dedup_key_strings (s m : str) :
  dedup_key (JStr s) (JStr m) = s ++ lit ":" ++ m.
Proof. reflexivity. Qed.

(** Scenario 1 of the specification. *)
Example clean_messages_scenario :
  clean_messages
    (JList [record (lit "Alice") (lit "hi");
            record (lit "Alice") (lit "hi");
            record (lit "Bob") (lit "<Media omitted>")])
  = Ok [ {| c_sender := lit "Alice"; c_role := lit "Alice";
            c_message := lit "hi" |} ].
Proof. vm_compute. reflexivity. Qed.

End NormalizerFacts.

(** C2.  The claim does not hold of the code: the dedup key is taken
    from the fields before they are trimmed, so two records that differ
    only in surrounding whitespace are both emitted, with the same
    [(sender, message)] pair in the output. *)
Theorem clean_messages_trimmed_duplicate `{Runtime} :
  clean_messages
    (JList [record (lit "Alice") (lit "hi");
            record (lit "Alice ") (lit "hi")])
  = Ok [ {| c_sender := lit "Alice"; c_role := lit "Alice";
            c_message := lit "hi" |};
         {| c_sender := lit "Alice"; c_role := lit "Alice";
            c_message := lit "hi" |} ].
Proof. vm_compute. reflexivity. Qed.

(** C3.  The claim does not hold of the code: a record whose sender is
    only whitespace raises [IndexError] (the role is the first word of
    the trimmed sender), a record without a sender raises [KeyError],
    and a record that is not an object raises [AttributeError]. *)
Theorem clean_messages_raises `{Runtime} :
  clean_messages (JList [record (lit " ") (lit "hi")]) = Raise IndexError
  ∧ clean_messages (JList [JDict [(k_message, JStr (lit "hi"))]])
    = Raise (KeyError (JStr (lit "sender")))
  ∧ clean_messages (JList [JStr (lit "hi")]) = Raise AttributeError.
Proof. repeat split; vm_compute; reflexivity. Qed.

(** C4.  The claim does not hold of the code: the emptiness and
    media-placeholder tests look at the message before it is trimmed, so
    a whitespace-only message is emitted as the empty message and a
    padded placeholder is emitted as the placeholder. *)
Theorem clean_messages_empty_message `{Runtime} :
  clean_messages (JList [record (lit "Alice") (lit "  ")])
  = Ok [ {| c_sender := lit "Alice"; c_role := lit "Alice";
            c_message := [] |} ]
  ∧ clean_messages (JList [record (lit "Bob") (lit " <Media omitted>")])
    = Ok [ {| c_sender := lit "Bob"; c_role := lit "Bob";
              c_message := media_omitted |} ].
Proof. split; vm_compute; reflexivity. Qed.

(** C9.  The dedup key of a record with string fields is
    [sender ++ ":" ++ message], taken before trimming, and it does not
    determine the pair: ("a:b", "c") and ("a", "b:c") are different
    pairs, also after trimming, with the same key, and of the two
    records only the first is emitted. *)
Theorem dedup_key_not_injective `{Runtime} :
  (∀ s m : str, dedup_key (JStr s) (JStr m) = s ++ lit ":" ++ m)
  ∧ (lit "a:b", lit "c") ≠ (lit "a", lit "b:c")
  ∧ (strip (lit "a:b"), strip (lit "c")) ≠ (strip (lit "a"), strip (lit "b:c"))
  ∧ dedup_key (JStr (lit "a:b")) (JStr (lit "c"))
    = dedup_key (JStr (lit "a")) (JStr (lit "b:c"))
  ∧ clean_messages
      (JList [record (lit "a:b") (lit "c"); record (lit "a") (lit "b:c")])
    = Ok [ {| c_sender := lit "a:b"; c_role := lit "a:b";
              c_message := lit "c" |} ]
  ∧ clean_messages (JList [record (lit "a") (lit "b:c")])
    = Ok [ {| c_sender := lit "a"; c_role := lit "a";
              c_message := lit "b:c" |} ].
Proof.
  split; [reflexivity|].
  repeat split; try (vm_compute; reflexivity); by vm_compute.
Qed.

(** ** The reply generator *)

Ltac run_step :=
  unfold bind, ret, raise, call, emit, lift, try_except,
    get_sessions, put_sessions; simpl.

Section ReplyFacts.
Context `{Tokenizer} {Env Store : Type} `{Backend Env Store}.

Implicit Types (st : state Env Store) (req : gen_request).

(** An attempt that succeeds ends the loop with the first candidate,
    stripped. *)
Lemma generate_loop_success req retries delay remaining attempt st
      first others w :
  co_generate req (env st) = (Ok (first :: others), w) →
  generate_loop req retries delay (S remaining) attempt st
  = (Ok (Some (strip first)),
     {| sessions := sessions st; env := w;
        trace := trace st ++ [EvGenerate req] |}).
Proof.
  intros Hgen. simpl. unfold attempt_generate. run_step.
  by rewrite Hgen.
Qed.



(** The loop leaves the sessions alone. *)
Lemma generate_loop_sessions req retries delay remaining attempt st :
  sessions (generate_loop req retries delay remaining attempt st).2
  = sessions st.
Proof.
  revert attempt st.
  induction remaining as [|remaining IH]; intros attempt st; [done|].
  simpl. unfold attempt_generate, py_sleep. run_step.
  destruct (co_generate req (env st)) as [[[|first others]|e] w]; simpl;
    try done;
    (destruct (attempt <? retries - 1); [|done]);
    (destruct (delay <? 0); [done|by rewrite IH]).
Qed.

(** Once the index query has returned and the context lines are
    tokenized, [gen_reply] is its retry loop. *)
Lemma gen_reply_loop user_msg (store : Store) history role retries delay st
      similar w ctx :
  similarity_search store user_msg 8 10 (env st) = (Ok similar, w) →
  assemble_context similar history role = Ok ctx →
  gen_reply user_msg store history role retries delay st
  = generate_loop (reply_request user_msg ctx history role)
      retries delay (Z.to_nat retries) 0
      {| sessions := sessions st; env := w;
         trace := trace st ++ [EvSearch store user_msg 8 10] |}.
Proof.
  intros Hsearch Hctx. unfold gen_reply, bind, call, lift.
  by rewrite Hsearch, Hctx.
Qed.

Lemma gen_reply_sessions user_msg (store : Store) history role
      retries delay st :
  sessions (gen_reply user_msg store history role retries delay st).2
  = sessions st.
Proof.
  unfold gen_reply, bind, call, lift.
  destruct (similarity_search store user_msg 8 10 (env st))
    as [[similar|e] w]; [|done].
  destruct (assemble_context similar history role) as [ctx|e]; [|done].
  by rewrite generate_loop_sessions.
Qed.

(** A loop whose last iteration has index [retries - 1] never falls
    through: it returns a text or raises. *)
Lemma generate_loop_returns_text req retries delay remaining attempt st
      reply st' :
  (0 < remaining)%nat →
  attempt + Z.of_nat remaining = retries →
  generate_loop req retries delay remaining attempt st = (Ok reply, st') →
  ∃ text, reply = Some text.
Proof.
  revert attempt st.
  induction remaining as [|remaining IH]; intros attempt st Hpos Hidx;
    [lia|].
  simpl. unfold attempt_generate, py_sleep. run_step.
  destruct (co_generate req (env st)) as [[[|first others]|e] w]; simpl.
  - destruct (Z.ltb_spec attempt (retries - 1)); [|done].
    destruct (delay <? 0); [done|]. apply IH; lia.
  - intros [= <- _]. by eexists.
  - destruct (Z.ltb_spec attempt (retries - 1)); [|done].
    destruct (delay <? 0); [done|]. apply IH; lia.
Qed.

Lemma gen_reply_returns_text user_msg (store : Store) history role
      delay st reply st' :
  gen_reply user_msg store history role 3 delay st = (Ok reply, st') →
  ∃ text, reply = Some text.
Proof.
  unfold gen_reply, bind, call, lift.
  destruct (similarity_search store user_msg 8 10 (env st))
    as [[similar|e] w]; [|done].
  destruct (assemble_context similar history role) as [ctx|e]; [|done].
  change (Z.to_nat 3) with 3%nat.
  apply generate_loop_returns_text; lia.
Qed.

End ReplyFacts.




(** ** The message handler *)

Section HandlerFacts.
Context `{Tokenizer} `{Runtime} {Env Store : Type} `{Backend Env Store}.

Implicit Types (st : state Env Store) (ss : gmap Z (session Store))
         (s : session Store) (uid : Z).

Lemma alter_present (f : session Store → session Store) uid ss s :
  ss !! uid = Some s → alter f uid ss = <[uid := f s]> ss.
Proof.
  intros Hs. apply map_eq. intros other.
  rewrite lookup_alter, lookup_insert.
  case_decide; [subst; by rewrite Hs|done].
Qed.

Lemma alter_inserted (f : session Store → session Store) uid ss s :
  alter f uid (<[uid := s]> ss) = <[uid := f s]> ss.
Proof.
  erewrite alter_present by apply lookup_insert_eq.
  by rewrite insert_insert_eq.
Qed.

Lemma dict_setdefault_lookup uid ss :
  dict_setdefault uid new_session ss !! uid
  = Some (default new_session (ss !! uid)).
Proof.
  unfold dict_setdefault.
  destruct (ss !! uid) eqn:Hs; simpl; [done|].
  by rewrite lookup_insert_eq.
Qed.

Lemma dict_setdefault_other uid other ss :
  other ≠ uid →
  dict_setdefault uid new_session ss !! other = ss !! other.
Proof.
  intros Hne. unfold dict_setdefault.
  destruct (ss !! uid); [done|]. by rewrite lookup_insert_ne.
Qed.

Lemma dict_setdefault_present uid ss s :
  ss !! uid = Some s → dict_setdefault uid new_session ss = ss.
Proof. intros Hs. unfold dict_setdefault. by rewrite Hs. Qed.

(** The chat path when the index or the persona is missing. *)
Lemma chat_guidance uid msg st s :
  sessions st !! uid = Some s →
  vector s = None ∨ role s = None ∨ role s = Some [] →
  chat uid msg st
  = (Ok tt, {| sessions := sessions st; env := env st;
               trace := trace st ++ [EvSend (Some msg_guidance) None None] |}).
Proof.
  intros Hs Hunset. unfold chat, read_session, send_text. run_step.
  rewrite Hs.
  destruct Hunset as [->|[->| ->]]; [done| |];
    by destruct (vector s).
Qed.

End HandlerFacts.

(** C7.  A reply requested (a private message without attachment) while
    the index or the persona of the user's session is unset ends
    normally with the guidance message as the only event: no retrieval,
    no generation, the environment of the backends untouched, and the
    session as it was (a fresh one for a user seen for the first
    time). *)
Theorem reply_without_setup `{Tokenizer} `{Runtime} {Env Store : Type}
        `{Backend Env Store} (msg : message) (st : state Env Store) :
  let uid := author_id msg in
  let prior := default new_session (sessions st !! uid) in
  from_bot msg = false → in_dm msg = true → attachments msg = [] →
  vector prior = None ∨ role prior = None ∨ role prior = Some [] →
  on_message msg st
  = (Ok tt,
     {| sessions := dict_setdefault uid new_session (sessions st);
        env := env st;
        trace := trace st ++ [EvSend (Some msg_guidance) None None] |})
  ∧ dict_setdefault uid new_session (sessions st) !! uid = Some prior
  ∧ (is_Some (sessions st !! uid) →
     dict_setdefault uid new_session (sessions st) = sessions st).
Proof.
  intros uid prior Hbot Hdm Hatt Hunset.
  split; [|split].
  - unfold on_message. rewrite Hbot, Hdm, Hatt. simpl.
    unfold setdefault_session. run_step.
    erewrite chat_guidance; [done|apply dict_setdefault_lookup|done].
  - apply dict_setdefault_lookup.
  - intros [s Hs]. by eapply dict_setdefault_present.
Qed.

Section ChatFacts.
Context `{Tokenizer} `{Runtime} {Env Store : Type} `{Backend Env Store}.

Implicit Types (st : state Env Store) (s : session Store) (uid : Z).

(** The chat path once index and persona are set, in terms of the
    outcome of [gen_reply]. *)
Lemma chat_reply uid msg st s store persona :
  sessions st !! uid = Some s →
  vector s = Some store → role s = Some persona → persona ≠ [] →
  let asked := append_history (lit "You: " ++ content msg) s in
  chat uid msg st
  = match gen_reply (content msg) store (history asked) persona 3 4
            {| sessions := <[uid := asked]> (sessions st);
               env := env st; trace := trace st ++ [EvTyping] |} with
    | (Ok reply, st2) =>
        (Ok tt,
         {| sessions :=
              <[uid := append_history
                         (persona ++ lit ": " ++ format_reply reply) asked]>
                (sessions st);
            env := env st2;
            trace := trace st2 ++ [EvSend reply None None] |})
    | (Raise e, st2) =>
        (Ok tt,
         {| sessions := <[uid := asked]> (sessions st);
            env := env st2;
            trace := trace st2 ++ [EvSend (Some (msg_error e)) None None] |})
    end.
Proof.
  intros Hs Hvector Hrole Hpersona asked.
  unfold chat, read_session, modify_session, send_text.
  unfold bind, ret, raise, call, emit, lift, try_except,
    get_sessions, put_sessions; cbn.
  rewrite Hs, Hvector, Hrole.
  destruct persona as [|c persona]; [done|]. cbn.
  rewrite (alter_present _ _ _ _ Hs), lookup_insert_eq. cbn.
  fold asked.
  match goal with
  | |- context [gen_reply ?msg ?sto ?hist ?who ?n ?d ?st1] =>
      pose proof (gen_reply_sessions msg sto hist who n d st1) as Hsessions;
      destruct (gen_reply msg sto hist who n d st1) as [[reply|err] st2]
  end; cbn in *.
  - by rewrite Hsessions, alter_inserted.
  - by rewrite Hsessions.
Qed.

End ChatFacts.

Lemma reply_without_setup_witness :
  @on_message char_tokenizer example_runtime nat unit (flaky_backend 0)
    (plain_message 7 (lit "hello")) (state_of indexed_session)
  = (Ok tt,
     {| sessions := {[ 7 := indexed_session ]}; env := 0%nat;
        trace := [EvSend (Some (@msg_guidance)) None None] |}).
Proof.
  apply (@reply_without_setup char_tokenizer example_runtime nat unit
           (flaky_backend 0) (plain_message 7 (lit "hello"))
           (state_of indexed_session));
    [reflexivity | reflexivity | reflexivity | by right; left].
Defined.

(** C10.  In the chat path the entry "You: <message>" is appended to the
    history before generation.  If [gen_reply] raises, the handler
    reports the error and ends: that entry stays the last one of the
    history and the other fields of the session are as before.  If
    [gen_reply] returns, it returns a text, and the entry
    "<role>: <reply>" is appended after the user's entry. *)
Theorem history_after_generation `{Tokenizer} `{Runtime} {Env Store : Type}
        `{Backend Env Store} (msg : message) (st : state Env Store)
        (s : session Store) (store : Store) (persona : str) :
  let uid := author_id msg in
  let you := lit "You: " ++ content msg in
  let asked :=
    {| vector := vector s; history := history s ++ [you];
       roles := roles s; role := role s |} in
  from_bot msg = false → in_dm msg = true → attachments msg = [] →
  sessions st !! uid = Some s →
  vector s = Some store → role s = Some persona → persona ≠ [] →
  match gen_reply (content msg) store (history s ++ [you]) persona 3 4
          {| sessions := <[uid := asked]> (sessions st);
             env := env st; trace := trace st ++ [EvTyping] |} with
  | (Raise e, st2) =>
      on_message msg st
      = (Ok tt,
         {| sessions := <[uid := asked]> (sessions st);
            env := env st2;
            trace := trace st2 ++ [EvSend (Some (msg_error e)) None None] |})
  | (Ok reply, st2) =>
      ∃ text,
        reply = Some text
        ∧ on_message msg st
          = (Ok tt,
             {| sessions :=
                  <[uid := {| vector := vector s;
                              history := history s
                                         ++ [you; persona ++ lit ": " ++ text];
                              roles := roles s; role := role s |}]>
                    (sessions st);
                env := env st2;
                trace := trace st2 ++ [EvSend (Some text) None None] |})
  end.
Proof.
  intros uid you asked Hbot Hdm Hatt Hs Hvector Hrole Hpersona.
  subst uid.
  assert (on_message msg st = chat (author_id msg) msg st) as ->.
  { unfold on_message. rewrite Hbot, Hdm, Hatt.
    unfold setdefault_session, bind, get_sessions, put_sessions.
    cbn -[chat dict_setdefault].
    rewrite (dict_setdefault_present _ _ _ Hs). by destruct st. }
  rewrite (chat_reply _ _ _ _ _ _ Hs Hvector Hrole Hpersona).
  change (append_history (lit "You: " ++ content msg) s) with asked.
  change (history asked) with (history s ++ [you]).
  destruct (gen_reply _ _ _ _ _ _ _) as [[reply|e] st2] eqn:Hgen; [|done].
  destruct (gen_reply_returns_text _ _ _ _ _ _ _ _ Hgen) as [text ->].
  exists text. split; [done|].
  unfold append_history, set_history. cbn. by rewrite <- app_assoc.
Qed.

Lemma history_after_generation_witness :
  history <$>
    (sessions
       (@on_message char_tokenizer example_runtime nat unit (flaky_backend 3)
          (plain_message 7 (lit "hello")) (state_of chatting_session)).2
     !! 7)
  = Some [lit "You: hi"; lit "Alice: hey"; lit "You: hello"]
  ∧ history <$>
      (sessions
         (@on_message char_tokenizer example_runtime nat unit (flaky_backend 0)
            (plain_message 7 (lit "hello")) (state_of chatting_session)).2
       !! 7)
    = Some [lit "You: hi"; lit "Alice: hey"; lit "You: hello";
            lit "Alice: on my way!"].
Proof.
  split.
  - pose proof (@history_after_generation char_tokenizer example_runtime
                  nat unit (flaky_backend 3) (plain_message 7 (lit "hello"))
                  (state_of chatting_session) chatting_session tt
                  (lit "Alice") eq_refl eq_refl eq_refl eq_refl eq_refl
                  eq_refl ltac:(done)) as Hthm.
    remember (on_message _ _) as outcome eqn:Houtcome in Hthm |- *.
    clear Houtcome. vm_compute in Hthm. rewrite Hthm. reflexivity.
  - pose proof (@history_after_generation char_tokenizer example_runtime
                  nat unit (flaky_backend 0) (plain_message 7 (lit "hello"))
                  (state_of chatting_session) chatting_session tt
                  (lit "Alice") eq_refl eq_refl eq_refl eq_refl eq_refl
                  eq_refl ltac:(done)) as Hthm.
    remember (on_message _ _) as outcome eqn:Houtcome in Hthm |- *.
    clear Houtcome. vm_compute in Hthm.
    destruct Hthm as (text & [= <-] & ->). reflexivity.
Defined.

Section UploadFacts.
Context `{Tokenizer} `{Runtime} {Env Store : Type} `{Backend Env Store}.

Implicit Types (st : state Env Store) (s : session Store) (uid : Z).

(** The sessions after the body for one [.json] attachment. *)
Lemma process_upload_sessions uid att st s :
  sessions st !! uid = Some s →
  sessions (process_upload uid att st).2
  = match loaded att with
    | Ok raw =>
        match clean_messages raw with
        | Ok (m :: ms) =>
            match faiss_from_texts
                    (c_message <$> m :: ms)
                    ((fun m => (c_sender m, c_role m)) <$> m :: ms)
                    (env st) with
            | (Ok v, _) =>
                <[uid := replaced_session v (m :: ms)]> (sessions st)
            | (Raise _, _) => sessions st
            end
        | _ => sessions st
        end
    | Raise _ => sessions st
    end.
Proof.
  intros Hs.
  unfold process_upload, build_vector, read_session, modify_session,
    send_text.
  unfold bind, ret, raise, call, emit, lift, get_sessions, put_sessions.
  cbn -[clean_messages sorted_roles].
  destruct (loaded att) as [raw|e]; [|done].
  destruct (clean_messages raw) as [[|m ms]|e]; [done| |done].
  cbn -[sorted_roles].
  destruct (faiss_from_texts _ _ (env st)) as [[v|e] w]; [|done].
  cbn -[sorted_roles].
  rewrite (alter_present _ _ _ _ Hs).
  rewrite !alter_inserted, lookup_insert_eq. done.
Qed.

Lemma upload_loop_sessions uid atts st :
  sessions (upload_loop uid atts st).2
  = match first_json atts with
    | Some att => sessions (process_upload uid att st).2
    | None => sessions st
    end.
Proof.
  induction atts as [|att atts IH]; [done|].
  unfold first_json in *. simpl.
  by destruct (endswith (filename att) (lit ".json")).
Qed.

End UploadFacts.

(** C6.  For a private message with attachments, the sessions of the
    other users are untouched and the session of the sender either keeps
    every field (a fresh session for a user seen for the first time), or
    is the one of a completed upload: the first [.json] attachment was
    read, its normalization is non-empty and the index build returned.
    In particular, when the normalization is empty or the index build
    raises, every field of the session keeps its value. *)
Theorem upload_keeps_or_replaces `{Tokenizer} `{Runtime} {Env Store : Type}
        `{Backend Env Store} (msg : message) (st : state Env Store) :
  let uid := author_id msg in
  let prior := default new_session (sessions st !! uid) in
  let final := (on_message msg st).2 in
  let build cleaned :=
    faiss_from_texts (c_message <$> cleaned)
                     ((fun m => (c_sender m, c_role m)) <$> cleaned)
                     (env st) in
  from_bot msg = false → in_dm msg = true → attachments msg ≠ [] →
  (∀ other, other ≠ uid → sessions final !! other = sessions st !! other)
  ∧ (sessions final !! uid = Some prior
     ∨ ∃ att raw cleaned v w,
         first_json (attachments msg) = Some att
         ∧ loaded att = Ok raw
         ∧ clean_messages raw = Ok cleaned
         ∧ cleaned ≠ []
         ∧ build cleaned = (Ok v, w)
         ∧ sessions final !! uid
           = Some {| vector := Some v; history := [];
                     roles := sorted_roles cleaned; role := None |})
  ∧ (∀ att raw,
        first_json (attachments msg) = Some att →
        loaded att = Ok raw →
        clean_messages raw = Ok []
        ∨ (∃ cleaned e w,
              clean_messages raw = Ok cleaned
              ∧ build cleaned = (Raise e, w)) →
        sessions final !! uid = Some prior).
Proof.
  intros uid prior final build Hbot Hdm Hatt.
  pose proof (dict_setdefault_lookup uid (sessions st)) as Hprior.
  fold prior in Hprior.
  assert (sessions final
          = match first_json (attachments msg) with
            | Some att =>
                match loaded att with
                | Ok raw =>
                    match clean_messages raw with
                    | Ok (m :: ms) =>
                        match build (m :: ms) with
                        | (Ok v, _) =>
                            <[uid := replaced_session v (m :: ms)]>
                              (dict_setdefault uid new_session (sessions st))
                        | (Raise _, _) =>
                            dict_setdefault uid new_session (sessions st)
                        end
                    | _ => dict_setdefault uid new_session (sessions st)
                    end
                | Raise _ => dict_setdefault uid new_session (sessions st)
                end
            | None => dict_setdefault uid new_session (sessions st)
            end) as Hfinal.
  { subst final. unfold on_message. rewrite Hbot, Hdm.
    destruct (attachments msg) as [|att0 atts] eqn:Hatts; [done|].
    unfold setdefault_session, bind, get_sessions, put_sessions.
    cbn -[upload_loop dict_setdefault first_json].
    rewrite upload_loop_sessions.
    destruct (first_json (att0 :: atts)) as [att|]; [|done].
    by erewrite process_upload_sessions by exact Hprior. }
  split; [|split].
  - intros other Hother. rewrite Hfinal.
    pose proof (dict_setdefault_other uid other (sessions st) Hother) as Hsame.
    destruct (first_json (attachments msg)) as [att|]; [|done].
    destruct (loaded att) as [raw|e]; [|done].
    destruct (clean_messages raw) as [[|m ms]|e]; [done| |done].
    destruct (build (m :: ms)) as [[v|e] w]; [|done].
    by rewrite lookup_insert_ne.
  - rewrite Hfinal.
    destruct (first_json (attachments msg)) as [att|]; [|by left].
    destruct (loaded att) as [raw|e] eqn:Hraw; [|by left].
    destruct (clean_messages raw) as [[|m ms]|e] eqn:Hclean;
      [by left| |by left].
    destruct (build (m :: ms)) as [[v|e] w] eqn:Hbuild; [|by left].
    right. exists att, raw, (m :: ms), v, w.
    rewrite lookup_insert_eq. by repeat split.
  - intros att raw Hfirst Hraw Hfail. rewrite Hfinal, Hfirst, Hraw.
    destruct Hfail as [->|(cleaned & e & w & -> & Hbuild)]; [done|].
    destruct cleaned as [|m ms]; [done|]. by rewrite Hbuild.
Qed.

Lemma upload_keeps_or_replaces_witness :
  sessions
    (@on_message char_tokenizer example_runtime nat unit no_index_backend
       (upload_message 7 (lit "chat.json")
          (Ok (JList [record (lit "Alice") (lit "hi")])))
       (state_of chatting_session)).2 !! 7
  = Some chatting_session
  ∧ sessions
      (@on_message char_tokenizer example_runtime nat unit (flaky_backend 0)
         (upload_message 7 (lit "chat.json")
            (Ok (JList [record (lit "Bob") (lit "<Media omitted>")])))
         (state_of chatting_session)).2 !! 7
    = Some chatting_session.
Proof.
  split.
  - eapply (@upload_keeps_or_replaces char_tokenizer example_runtime nat unit
              no_index_backend
              (upload_message 7 (lit "chat.json")
                 (Ok (JList [record (lit "Alice") (lit "hi")])))
              (state_of chatting_session) eq_refl eq_refl ltac:(done));
      [reflexivity | reflexivity |].
    right. eexists _, _, _. split; reflexivity.
  - eapply (@upload_keeps_or_replaces char_tokenizer example_runtime nat unit
              (flaky_backend 0)
              (upload_message 7 (lit "chat.json")
                 (Ok (JList [record (lit "Bob") (lit "<Media omitted>")])))
              (state_of chatting_session) eq_refl eq_refl ltac:(done));
      [reflexivity | reflexivity |].
    left. reflexivity.
Defined.

(** Scenario 1 of the specification, end to end: the upload goes
    through, the session is replaced and the roles are those of the
    transcript. *)
Example upload_scenario :
  sessions
    (@on_message char_tokenizer example_runtime nat unit (flaky_backend 0)
       (upload_message 7 (lit "chat.json")
          (Ok (JList [record (lit "Bob Jones") (lit "yo");
                      record (lit "Alice") (lit "hi");
                      record (lit "Alice") (lit "hi");
                      record (lit "Bob") (lit "<Media omitted>")])))
       (state_of chatting_session)).2 !! 7
  = Some {| vector := Some tt; history := [];
            roles := [lit "Alice"; lit "Bob"]; role := None |}.
Proof. vm_compute. reflexivity. Qed.

(** * Further properties of the code *)

(** ** More on the context trimmer *)

Section TrimmerLaws.
Context `{Tokenizer}.

(** When the call returns under a budget it returns under every smaller
    one, with a suffix of what it kept. *)
Lemma limit_context_smaller lines m1 m2 out2 :
  m1 <= m2 → limit_context lines m2 = Ok out2 →
  ∃ out1, limit_context lines m1 = Ok out1 ∧ out1 `suffix_of` out2.
Proof.
  unfold limit_context. intros Hle.
  destruct (limit_loop m2 (rev lines) 0 []) as [res2|e] eqn:Hloop; [|done].
  intros [= <-].
  destruct (limit_loop_mono m1 m2 _ _ _ _ Hle Hloop) as (res1 & -> & Hpre).
  exists (rev res1). split; [done|]. by apply prefix_rev_suffix.
Qed.

(** When the call returns on a list it returns on every suffix of the
    list, with a suffix of what it kept. *)
Lemma limit_context_fewer older lines max_tokens out :
  limit_context (older ++ lines) max_tokens = Ok out →
  ∃ out0, limit_context lines max_tokens = Ok out0 ∧ out0 `suffix_of` out.
Proof.
  unfold limit_context. rewrite rev_app_distr.
  destruct (limit_loop max_tokens (rev lines ++ rev older) 0 [])
    as [res|e] eqn:Hloop; [|done].
  intros [= <-].
  destruct (limit_loop_app _ _ _ _ _ _ Hloop) as (res1 & -> & Hpre).
  exists (rev res1). split; [done|]. by apply prefix_rev_suffix.
Qed.

(** What the call returns, it returns again when given it. *)
Lemma limit_context_again lines max_tokens out :
  limit_context lines max_tokens = Ok out →
  limit_context out max_tokens = Ok out.
Proof.
  intros Hout.
  apply limit_context_ok in Hout as (_ & t & _ & Ht & Hsum & _).
  apply limit_context_ok. exists [], t. split_and!; [done..|].
  intros pre ln Hnil. by destruct pre.
Qed.

End TrimmerLaws.

(** X1.  Under a non-negative budget nothing is trimmed exactly when the
    whole list fits: the lines come back unchanged if and only if the
    tokenizer accepts every line and their total token count is within
    the budget. *)
Theorem limit_context_unchanged_iff `{Tokenizer} (lines : list str)
        (max_tokens : Z) :
  0 <= max_tokens →
  limit_context lines max_tokens = Ok lines
  ↔ ∃ t, total_tokens lines = Ok t ∧ t <= max_tokens.
Proof.
  intros Hpos. split.
  - intros Hout. by eapply limit_context_total.
  - intros (t & Ht & Hfits). apply limit_context_ok.
    exists [], t. split_and!; [done|done|by right|].
    intros pre ln Hnil. by destruct pre.
Qed.

Lemma limit_context_unchanged_iff_witness :
  0 <= 7
  ∧ @limit_context char_tokenizer [lit "aaaa"; lit "bb"; lit "c"] 7
    = Ok [lit "aaaa"; lit "bb"; lit "c"].
Proof.
  split; [lia|].
  apply (@limit_context_unchanged_iff char_tokenizer
           [lit "aaaa"; lit "bb"; lit "c"] 7); [lia|].
  exists 7. split; [reflexivity|lia].
Defined.

(** X2.  A larger budget never loses a line: when the call returns
    under a budget, it returns under every smaller budget too, and the
    lines kept under the smaller budget are a suffix of the lines kept
    under the larger one.  (Under the larger budget the loop can reach
    a line the tokenizer refuses, and raise, where it had stopped before
    under the smaller one.) *)
Theorem limit_context_monotone `{Tokenizer} (lines : list str) (m1 m2 : Z)
        (out2 : list str) :
  m1 <= m2 →
  limit_context lines m2 = Ok out2 →
  ∃ out1, limit_context lines m1 = Ok out1 ∧ out1 `suffix_of` out2.
Proof. apply limit_context_smaller. Qed.

Lemma limit_context_monotone_witness :
  4 <= 7
  ∧ @limit_context char_tokenizer [lit "aaaa"; lit "bb"; lit "c"] 7
    = Ok [lit "aaaa"; lit "bb"; lit "c"]
  ∧ ∃ out1,
      @limit_context char_tokenizer [lit "aaaa"; lit "bb"; lit "c"] 4
      = Ok out1
      ∧ out1 `suffix_of` [lit "aaaa"; lit "bb"; lit "c"].
Proof.
  split; [lia|]. split; [reflexivity|].
  apply (@limit_context_monotone char_tokenizer
           [lit "aaaa"; lit "bb"; lit "c"] 4 7); [lia|reflexivity].
Defined.

(** X3.  Trimming is idempotent: when the call returns, trimming what
    it returned to the same budget returns it unchanged, for every
    budget. *)
Theorem limit_context_idempotent `{Tokenizer} (lines : list str)
        (max_tokens : Z) (out : list str) :
  limit_context lines max_tokens = Ok out →
  limit_context out max_tokens = Ok out.
Proof. apply limit_context_again. Qed.

Lemma limit_context_idempotent_witness :
  @limit_context char_tokenizer [lit "aaaa"; lit "bb"; lit "c"] 3
  = Ok [lit "bb"; lit "c"]
  ∧ @limit_context char_tokenizer [lit "bb"; lit "c"] 3
    = Ok [lit "bb"; lit "c"].
Proof.
  split; [reflexivity|].
  apply (@limit_context_idempotent char_tokenizer
           [lit "aaaa"; lit "bb"; lit "c"] 3).
  reflexivity.
Defined.

(** X4.  Older lines put in front never displace newer ones: when the
    call returns on [older ++ lines], it returns on [lines] alone too,
    and what it keeps of [lines] alone is a suffix of what it keeps of
    the longer list.  (A line put in front can make the call raise, if
    the tokenizer refuses it and the budget lets the loop reach it.) *)
Theorem limit_context_prepend `{Tokenizer} (older lines : list str)
        (max_tokens : Z) (out : list str) :
  limit_context (older ++ lines) max_tokens = Ok out →
  ∃ out0, limit_context lines max_tokens = Ok out0 ∧ out0 `suffix_of` out.
Proof. apply limit_context_fewer. Qed.

Lemma limit_context_prepend_witness :
  @limit_context char_tokenizer ([lit "aaaa"; lit "bb"] ++ [lit "c"]) 3
  = Ok [lit "bb"; lit "c"]
  ∧ ∃ out0,
      @limit_context char_tokenizer [lit "c"] 3 = Ok out0
      ∧ out0 `suffix_of` [lit "bb"; lit "c"].
Proof.
  split; [reflexivity|].
  apply (@limit_context_prepend char_tokenizer
           [lit "aaaa"; lit "bb"] [lit "c"] 3).
  reflexivity.
Defined.

(** X5.  The context [gen_reply] puts in the prompt.  When the
    tokenizer raises on a line it is asked about, the assembly raises
    that exception, and the line is one of the retrieved lines or of the
    formatted recent history.  Otherwise the context is a suffix of the
    retrieved lines followed by the formatted recent history, counts at
    most 1800 tokens, and contains whatever the recent history alone
    would have kept: retrieved lines are dropped first. *)
Theorem assemble_context_budget `{Tokenizer} (similar : list document)
        (history : list str) (role : str) :
  let retrieved :=
    (fun d => meta_sender d ++ lit ": " ++ page_content d) <$> similar in
  let recent := format_history_for_prompt history (lit "You") role 6 in
  match assemble_context similar history role with
  | Ok ctx =>
      ctx `suffix_of` retrieved ++ recent
      ∧ (∃ t, total_tokens ctx = Ok t ∧ t <= 1800)
      ∧ ∃ kept, limit_context recent 1800 = Ok kept
                ∧ kept `suffix_of` ctx
  | Raise e =>
      ∃ ln, ln ∈ retrieved ++ recent ∧ encode ln = Raise e
  end.
Proof.
  intros retrieved recent. unfold assemble_context.
  fold retrieved. fold recent.
  destruct (limit_context (retrieved ++ recent) 1800) as [ctx|e] eqn:Hctx.
  - split; [by eapply limit_context_suffix|].
    split; [by eapply limit_context_total|].
    by eapply limit_context_fewer.
  - by eapply limit_context_raise.
Qed.

(** ** Python's [strip] *)

Lemma lstrip_app_nonspace (s : str) (c : N) :
  isspace c = false → lstrip (s ++ [c]) = lstrip s ++ [c].
Proof.
  intros Hc. induction s as [|d s IH]; simpl; [by rewrite Hc|].
  by destruct (isspace d).
Qed.

Lemma lstrip_app_space (s : str) (c : N) :
  isspace c = true →
  lstrip (s ++ [c]) = match lstrip s with [] => [] | t => t ++ [c] end.
Proof.
  intros Hc. induction s as [|d s IH]; simpl; [by rewrite Hc|].
  by destruct (isspace d).
Qed.

Lemma lstrip_head (s : str) :
  match lstrip s with
  | [] => True
  | c :: _ => isspace c = false
  end.
Proof.
  induction s as [|d s IH]; simpl; [done|].
  by destruct (isspace d) eqn:Hd.
Qed.

Lemma lstrip_fixed (c : N) (s : str) :
  isspace c = false → lstrip (c :: s) = c :: s.
Proof. intros Hc. simpl. by rewrite Hc. Qed.

Lemma rstrip_cons_nonspace (c : N) (s : str) :
  isspace c = false → rstrip (c :: s) = c :: rstrip s.
Proof.
  intros Hc. unfold rstrip. simpl.
  rewrite lstrip_app_nonspace by done.
  by rewrite rev_app_distr.
Qed.

(** A stripped string is empty or starts with a character that is not
    whitespace. *)
Lemma strip_head (s : str) :
  match strip s with
  | [] => True
  | c :: _ => isspace c = false
  end.
Proof.
  unfold strip. pose proof (lstrip_head s) as Hhead.
  destruct (lstrip s) as [|c t]; [done|].
  by rewrite rstrip_cons_nonspace.
Qed.

Lemma lstrip_strip (s : str) : lstrip (strip s) = strip s.
Proof.
  pose proof (strip_head s) as Hhead.
  destruct (strip s) as [|c t]; [done|]. by apply lstrip_fixed.
Qed.

Lemma lstrip_idempotent (s : str) : lstrip (lstrip s) = lstrip s.
Proof.
  pose proof (lstrip_head s) as Hhead.
  destruct (lstrip s) as [|c t]; [done|]. by apply lstrip_fixed.
Qed.

Lemma strip_idempotent (s : str) : strip (strip s) = strip s.
Proof.
  unfold strip at 1. rewrite lstrip_strip.
  unfold strip, rstrip. by rewrite rev_involutive, lstrip_idempotent.
Qed.

Lemma startswith_app (p s : str) : startswith (p ++ s) p = true.
Proof.
  induction p as [|c p IH]; simpl; [by destruct s|].
  by rewrite N.eqb_refl, IH.
Qed.

(** ** More on the history formatter *)

Lemma format_history_drop history user_name role_name (limit : nat) :
  (0 < limit)%nat →
  format_history_for_prompt history user_name role_name (Z.of_nat limit)
  = drop (length history - limit)
         (format_entry user_name role_name <$> history).
Proof.
  intros Hpos.
  by rewrite format_history_map, slice_from_last, fmap_drop.
Qed.

(** X6.  The number of formatted lines, for every integer window: a
    positive window of [limit] gives [min n limit] lines, a window of 0
    gives all [n] lines (the slice [history[-0:]] is the whole list), and
    a negative window drops the first [-limit] entries. *)
Theorem format_history_length (history : list str) (user_name role_name : str)
        (limit : Z) :
  Z.of_nat (length (format_history_for_prompt
                      history user_name role_name limit))
  = if 0 <? limit
    then Z.min (Z.of_nat (length history)) limit
    else Z.max 0 (Z.of_nat (length history) + limit).
Proof.
  rewrite format_history_map, length_fmap. unfold slice_from.
  destruct (Z.ltb_spec 0 limit), (Z.ltb_spec (- limit) 0);
    try lia; rewrite length_drop; lia.
Qed.

(** X7.  Windows nest: for positive windows [a <= b], the block formatted
    with window [a] is the tail of the block formatted with window [b].
    In [gen_reply] the 3-entry block of the prompt is the tail of the
    6-entry block added to the context. *)
Theorem format_history_nested (history : list str) (user_name role_name : str)
        (a b : Z) :
  0 < a → a <= b →
  format_history_for_prompt history user_name role_name a
  `suffix_of` format_history_for_prompt history user_name role_name b.
Proof.
  intros Ha Hab.
  rewrite <- (Z2Nat.id a), <- (Z2Nat.id b) by lia.
  rewrite !format_history_drop by lia.
  set (lines := format_entry user_name role_name <$> history).
  set (n := length history).
  replace (drop (n - Z.to_nat a) lines)
    with (drop ((n - Z.to_nat a) - (n - Z.to_nat b))
               (drop (n - Z.to_nat b) lines)).
  - apply suffix_drop.
  - rewrite drop_drop. f_equal. lia.
Qed.

Lemma format_history_nested_witness :
  0 < 3 ∧ 3 <= 6
  ∧ format_history_for_prompt
      [lit "You: a"; lit "Bob: b"; lit "You: c"; lit "Bob: d"]
      (lit "You") (lit "Bob") 3
    `suffix_of`
    format_history_for_prompt
      [lit "You: a"; lit "Bob: b"; lit "You: c"; lit "Bob: d"]
      (lit "You") (lit "Bob") 6.
Proof.
  split; [lia|]. split; [lia|].
  apply (format_history_nested
           [lit "You: a"; lit "Bob: b"; lit "You: c"; lit "Bob: d"]
           (lit "You") (lit "Bob") 3 6); lia.
Defined.

Lemma strip_leading_space (s : str) : strip (32%N :: s) = strip s.
Proof. reflexivity. Qed.

(** A persona entry starts with "You:" only for the persona "You" (or a
    persona that itself starts with "You:"). *)
Lemma persona_entry_you (role rest : str) :
  startswith role (lit "You:") = false →
  startswith (role ++ lit ": " ++ rest) (lit "You:") = true →
  role = lit "You".
Proof.
  change (lit "You:") with [89%N; 111%N; 117%N; 58%N].
  change (lit ": ") with [58%N; 32%N].
  change (lit "You") with [89%N; 111%N; 117%N].
  destruct role as [|c1 [|c2 [|c3 [|c4 role]]]]; cbn [startswith app];
    repeat match goal with
      | |- context [(?a =? ?b)%N] =>
          destruct (N.eqb_spec a b); cbn [andb]
      end; subst; try done.
  by destruct role.
Qed.

(** X8.  The entries the handler appends to the history are rendered as
    they are by the formatter used for the prompt: a user entry
    "You: <content>" comes out with its content stripped, and a persona
    entry "<role>: <reply>" with an already stripped reply, as
    [gen_reply] returns it, comes out unchanged, for every persona that
    does not itself start with "You:". *)
Theorem handler_entries_render (role content text : str) :
  startswith role (lit "You:") = false →
  format_entry (lit "You") role (lit "You: " ++ content)
  = lit "You: " ++ strip content
  ∧ format_entry (lit "You") role (role ++ lit ": " ++ strip text)
    = role ++ lit ": " ++ strip text.
Proof.
  intros Hrole. split; [reflexivity|].
  unfold format_entry, you_label.
  destruct (startswith (role ++ lit ": " ++ strip text) (lit "You:"))
    eqn:Hyou.
  - rewrite (persona_entry_you _ _ Hrole Hyou).
    change (drop 4 (lit "You" ++ lit ": " ++ strip text))
      with (32%N :: strip text).
    by rewrite strip_leading_space, strip_idempotent.
  - assert (role ++ lit ": " ++ strip text
            = (role ++ lit ":") ++ 32%N :: strip text) as Hentry
        by (by rewrite <- app_assoc).
    assert (startswith (role ++ lit ": " ++ strip text) (role ++ lit ":")
            = true) as ->
        by (rewrite Hentry; apply startswith_app).
    assert (drop (length role + 1) (role ++ lit ": " ++ strip text)
            = 32%N :: strip text) as ->.
    { rewrite Hentry.
      replace (length role + 1)%nat with (length (role ++ lit ":"))
        by (rewrite length_app; simpl; lia).
      apply drop_app_length. }
    by rewrite strip_leading_space, strip_idempotent.
Qed.

Lemma handler_entries_render_witness :
  format_entry (lit "You") (lit "Alice")
               (lit "Alice" ++ lit ": " ++ strip (lit " ok "))
  = lit "Alice: ok".
Proof.
  rewrite (proj2 (handler_entries_render (lit "Alice") [] (lit " ok ")
                    eq_refl)).
  reflexivity.
Defined.

(** ** Python's [split] *)



Lemma split_from_nil (s word : str) :
  split_from word s = [] → word = [] ∧ blank s = true.
Proof.
  revert word. induction s as [|c s IH]; intros word; simpl.
  - by destruct word.
  - destruct (isspace c) eqn:Hc.
    + destruct word; [|done]. intros Hs. by destruct (IH _ Hs).
    + intros Hs. destruct (IH _ Hs) as [Hword _]. by destruct word.
Qed.

Lemma lstrip_nil (s : str) : lstrip s = [] → blank s = true.
Proof.
  induction s as [|c s IH]; simpl; [done|].
  by destruct (isspace c).
Qed.

Lemma blank_rev (s : str) : blank (rev s) = blank s.
Proof.
  unfold blank. induction s as [|c s IH]; simpl; [done|].
  rewrite forallb_app, IH. simpl. rewrite andb_true_r. apply andb_comm.
Qed.

Lemma strip_nil (s : str) : strip s = [] → blank s = true.
Proof.
  unfold strip. intros Hs.
  pose proof (lstrip_head s) as Hhead.
  destruct (lstrip s) as [|c t] eqn:Hl; [by apply lstrip_nil|].
  by rewrite rstrip_cons_nonspace in Hs.
Qed.

(** A sender with a character that is not whitespace has a first
    word. *)
Lemma canonical_of_defined (r : str * str) :
  blank r.1 = false → is_Some (canonical_of r).
Proof.
  intros Hblank. unfold canonical_of, split.
  destruct (split_from [] (strip r.1)) eqn:Hsplit; [|by eexists].
  apply split_from_nil in Hsplit as [_ Hs].
  pose proof (strip_head r.1) as Hhead.
  destruct (strip r.1) as [|c t] eqn:Hstrip.
  - apply strip_nil in Hstrip. congruence.
  - simpl in Hs. by rewrite Hhead in Hs.
Qed.


(** ** More on the normalizer *)

Set Warnings "-clear-no-such-hyp".

Section NormalizerLaws.
Context `{Runtime}.

Implicit Types (m : json) (seen : gset str) (out : list canonical)
         (r : str * str).

Lemma usable_string (t : str) :
  (negb (truthy (JStr t)) || eq_str (JStr t) media_omitted)
  = negb (usable t).
Proof.
  unfold usable, eq_str, truthy.
  destruct t as [|c t]; repeat case_bool_decide; done.
Qed.

(** One iteration either leaves the state as it is, and then a usable
    record has its key in [seen] already, or emits the entry of a usable
    record whose key is new. *)
Lemma clean_step_cases m seen out st' :
  clean_step m (seen, out) = Ok st' →
  (st' = (seen, out)
   ∧ ∀ r, fields m = Some r → usable r.2 = true → raw_key r ∈ seen)
  ∨ ∃ r c,
      fields m = Some r ∧ usable r.2 = true ∧ canonical_of r = Some c
      ∧ (raw_key r ∉ seen)
      ∧ st' = (seen ∪ {[ raw_key r ]}, out ++ [c]).
Proof.
  unfold clean_step, fields. destruct m as [| | | | |d]; try done.
  destruct (dict_get d k_message) as [message|] eqn:Hmessage.
  2:{ intros [= <-]. left. split; [done|]. intros r.
      by destruct (dict_get d k_sender) as [[]|]. }
  destruct (negb (truthy message) || eq_str message media_omitted)
    eqn:Hfilter.
  { intros [= <-]. left. split; [done|]. intros r Hr Husable.
    destruct (dict_get d k_sender) as [[| | |s| |]|]; try done.
    destruct message as [| | |t| |]; try done.
    injection Hr as <-. simpl in Husable.
    rewrite usable_string, Husable in Hfilter. done. }
  destruct (dict_get d k_sender) as [sender|] eqn:Hsender; [|done].
  destruct (decide (dedup_key sender message ∈ seen)) as [Hseen|Hnew].
  { intros [= <-]. left. split; [done|]. intros r Hr _.
    destruct sender as [| | |s| |]; try done.
    destruct message as [| | |t| |]; try done.
    by injection Hr as <-. }
  destruct sender as [| | |s| |]; try done. simpl.
  destruct (split (strip s)) as [|role rest] eqn:Hsplit; [done|].
  destruct message as [| | |t| |]; try done. simpl.
  intros [= <-]. right.
  exists (s, t), {| c_sender := strip s; c_role := role;
                    c_message := strip t |}.
  rewrite usable_string in Hfilter.
  repeat split; try done.
  - simpl. by destruct (usable t).
  - unfold canonical_of. simpl. by rewrite Hsplit.
Qed.

(** A record that went through an iteration is skipped by every later
    iteration. *)
Lemma clean_step_repeat m seen out seen' out' seen2 out2 :
  clean_step m (seen, out) = Ok (seen', out') →
  seen' ⊆ seen2 →
  clean_step m (seen2, out2) = Ok (seen2, out2).
Proof.
  intros Hstep Hsub. revert Hstep.
  unfold clean_step. destruct m as [| | | | |d]; try done.
  destruct (dict_get d k_message) as [message|]; [|done].
  destruct (negb (truthy message) || eq_str message media_omitted); [done|].
  destruct (dict_get d k_sender) as [sender|]; [|done].
  destruct (decide (dedup_key sender message ∈ seen)) as [Hseen|Hnew].
  - intros [= <- <-]. rewrite decide_True; [done|set_solver].
  - destruct (strip_value sender) as [s|]; [|done].
    destruct (split s) as [|role rest]; [done|].
    destruct (strip_value message) as [t|]; [|done].
    intros [= <- <-]. rewrite decide_True; [done|set_solver].
Qed.

Lemma clean_step_seen m seen out seen' out' :
  clean_step m (seen, out) = Ok (seen', out') → seen ⊆ seen'.
Proof.
  intros Hstep.
  destruct (clean_step_cases _ _ _ _ Hstep)
    as [[[= <- <-] _]|(r & c & _ & _ & _ & _ & [= -> ->])]; set_solver.
Qed.

Lemma clean_loop_run (ms : list json) (st : gset str * list canonical) :
  clean_loop ms st
  = match clean_run ms st with
    | Ok st' => Ok st'.2
    | Raise e => Raise e
    end.
Proof.
  revert st. induction ms as [|m ms IH]; intros st; simpl; [done|].
  by destruct (clean_step m st).
Qed.

Lemma clean_run_app (ms1 ms2 : list json) (st : gset str * list canonical) :
  clean_run (ms1 ++ ms2) st
  = match clean_run ms1 st with
    | Ok st' => clean_run ms2 st'
    | Raise e => Raise e
    end.
Proof.
  revert st. induction ms1 as [|m ms1 IH]; intros st; simpl; [done|].
  by destruct (clean_step m st).
Qed.

Lemma clean_run_seen (ms : list json) seen out seen' out' :
  clean_run ms (seen, out) = Ok (seen', out') → seen ⊆ seen'.
Proof.
  revert seen out.
  induction ms as [|m ms IH]; intros seen out; cbn [clean_run].
  - by intros [= <- <-].
  - destruct (clean_step m (seen, out)) as [[seen1 out1]|] eqn:Hstep;
      [|done].
    intros Hrun. apply clean_step_seen in Hstep. apply IH in Hrun.
    set_solver.
Qed.

(** What a run of the loop has emitted. *)
Lemma clean_run_emits (ms : list json) seen out seen' out' :
  clean_run ms (seen, out) = Ok (seen', out') →
  ∃ rs cs,
    rs `sublist_of` omap fields ms
    ∧ Forall (fun r => usable r.2 = true) rs
    ∧ Forall2 (fun r c => canonical_of r = Some c) rs cs
    ∧ NoDup (raw_key <$> rs)
    ∧ (∀ r, r ∈ rs → raw_key r ∉ seen)
    ∧ seen' = seen ∪ list_to_set (raw_key <$> rs)
    ∧ out' = out ++ cs
    ∧ ∀ r, r ∈ omap fields ms → usable r.2 = true → raw_key r ∈ seen'.
Proof.
  revert seen out.
  induction ms as [|m ms IH]; intros seen out; cbn [clean_run].
  - intros [= <- <-]. exists [], []. rewrite app_nil_r.
    repeat split; try constructor; set_solver.
  - change (omap fields (m :: ms))
      with (match fields m with
            | Some r => r :: omap fields ms
            | None => omap fields ms
            end).
    destruct (clean_step m (seen, out)) as [[seen1 out1]|] eqn:Hstep;
      [|done].
    intros Hrun.
    pose proof (clean_run_seen _ _ _ _ _ Hrun) as Hmono.
    destruct (IH _ _ Hrun)
      as (rs & cs & Hsub & Husable & Hcanon & Hnodup & Hfresh & -> & ->
          & Hall).
    destruct (clean_step_cases _ _ _ _ Hstep)
      as [[[= -> ->] Hskip]|(r & c & Hr & Hru & Hrc & Hrnew & [= -> ->])].
    + exists rs, cs. repeat split; try done.
      * destruct (fields m); [by apply sublist_cons|done].
      * intros r Hr Hru. destruct (fields m) as [r0|] eqn:Hm;
          [|by apply Hall].
        apply elem_of_cons in Hr as [->|Hr]; [|by apply Hall].
        apply Hmono. by apply Hskip.
    + exists (r :: rs), (c :: cs). rewrite Hr.
      repeat split.
      * by apply sublist_skip.
      * by constructor.
      * by constructor.
      * simpl. constructor; [|done].
        intros (r' & Hkey & Hr')%list_elem_of_fmap.
        apply (Hfresh r' Hr'). rewrite <- Hkey. set_solver.
      * intros r' [->|Hr']%elem_of_cons; [done|].
        specialize (Hfresh r' Hr'). set_solver.
      * simpl. set_solver.
      * by rewrite <- app_assoc.
      * intros r' [->|Hr']%elem_of_cons Hu; [set_solver|by apply Hall].
Qed.

End NormalizerLaws.

Section NormalizerRuns.
Context `{Runtime}.

Lemma clean_messages_list (ms : list json) :
  clean_messages (JList ms)
  = match clean_run ms (∅, []) with
    | Ok st => Ok st.2
    | Raise e => Raise e
    end.
Proof. unfold clean_messages. simpl. apply clean_loop_run. Qed.

Lemma clean_messages_run (raw : json) (out : list canonical) :
  clean_messages raw = Ok out →
  ∃ ms seen, iterate raw = Ok ms ∧ clean_run ms (∅, []) = Ok (seen, out).
Proof.
  unfold clean_messages. destruct (iterate raw) as [ms|]; [|done].
  rewrite clean_loop_run.
  destruct (clean_run ms (∅, [])) as [[seen out']|] eqn:Hrun; [|done].
  intros [= <-]. by exists ms, seen.
Qed.

(** A well-formed record never makes an iteration raise, and an
    iteration adds at most one entry. *)
Lemma clean_step_well_formed (m : json) (st : gset str * list canonical) :
  well_formed m = true →
  ∃ st', clean_step m st = Ok st' ∧ (length st'.2 ≤ S (length st.2))%nat.
Proof.
  destruct st as [seen out]. unfold well_formed, clean_step.
  destruct m as [| | | | |d]; try done.
  destruct (dict_get d k_sender) as [[| | |s| |]|]; try done.
  intros [Hs Hm]%andb_true_iff. apply negb_true_iff in Hs.
  destruct (dict_get d k_message) as [[| | |t| |]|]; try done;
    try (eexists; split; [done|simpl; lia]).
  destruct (negb (truthy (JStr t)) || eq_str (JStr t) media_omitted);
    [eexists; split; [done|simpl; lia]|].
  destruct (decide (dedup_key (JStr s) (JStr t) ∈ seen));
    [eexists; split; [done|simpl; lia]|].
  simpl.
  destruct (canonical_of_defined (s, t) Hs) as [c Hc].
  unfold canonical_of in Hc. simpl in Hc.
  destruct (split (strip s)) as [|role rest]; [done|].
  eexists. split; [done|]. simpl. rewrite length_app. simpl. lia.
Qed.

Lemma clean_run_well_formed (ms : list json)
      (st : gset str * list canonical) :
  Forall (fun m => well_formed m = true) ms →
  ∃ st', clean_run ms st = Ok st'
         ∧ (length st'.2 ≤ length st.2 + length ms)%nat.
Proof.
  intros Hms. revert st.
  induction Hms as [|m ms Hm _ IH]; intros st; cbn [clean_run].
  - exists st. split; [done|simpl; lia].
  - destruct (clean_step_well_formed m st Hm) as (st1 & -> & Hlen1).
    destruct (IH st1) as (st' & -> & Hlen).
    exists st'. split; [done|]. simpl. lia.
Qed.

End NormalizerRuns.

(** X9.  Whenever the normalizer returns, its output is made, in input
    order, from records with two string fields and a usable message
    (non-empty and not the media placeholder before trimming) whose
    untrimmed keys [sender ++ ":" ++ message] are pairwise distinct: each
    entry is the trimmed record with its role.  Nothing usable is lost
    but repetitions: every usable record has the key of an emitted
    one. *)
Theorem clean_messages_emits `{Runtime} (raw : json) (out : list canonical) :
  clean_messages raw = Ok out →
  ∃ ms rs,
    iterate raw = Ok ms
    ∧ rs `sublist_of` omap fields ms
    ∧ Forall (fun r => usable r.2 = true) rs
    ∧ NoDup (raw_key <$> rs)
    ∧ Forall2 (fun r c => canonical_of r = Some c) rs out
    ∧ ∀ r, r ∈ omap fields ms → usable r.2 = true →
           ∃ r', r' ∈ rs ∧ raw_key r' = raw_key r.
Proof.
  intros (ms & seen & Hiter & Hrun)%clean_messages_run.
  destruct (clean_run_emits _ _ _ _ _ Hrun)
    as (rs & cs & Hsub & Husable & Hcanon & Hnodup & _ & -> & Hout & Hall).
  simpl in Hout. subst cs.
  exists ms, rs. repeat split; try done.
  intros r Hr Hu. specialize (Hall r Hr Hu).
  apply elem_of_union in Hall as [Hempty|Hin]; [set_solver|].
  apply elem_of_list_to_set, list_elem_of_fmap in Hin as (r' & Hkey & Hr').
  by exists r'.
Qed.

Lemma clean_messages_emits_witness :
  ∃ rs,
    rs `sublist_of` [(lit "Alice", lit "hi"); (lit "Alice", lit "hi");
                     (lit "Bob", lit "<Media omitted>")]
    ∧ NoDup (raw_key <$> rs)
    ∧ Forall2 (fun r c => canonical_of r = Some c) rs
              [ {| c_sender := lit "Alice"; c_role := lit "Alice";
                   c_message := lit "hi" |} ].
Proof.
  destruct (@clean_messages_emits example_runtime
              (JList [record (lit "Alice") (lit "hi");
                      record (lit "Alice") (lit "hi");
                      record (lit "Bob") (lit "<Media omitted>")])
              [ {| c_sender := lit "Alice"; c_role := lit "Alice";
                   c_message := lit "hi" |} ])
    as (ms & rs & [= <-] & Hsub & _ & Hnodup & Hcanon & _).
  - vm_compute. reflexivity.
  - by exists rs.
Defined.



(** X11.  On records that are objects with a sender holding a character
    that is not whitespace and a message that is absent, null or a
    string, the normalizer does not raise, and it returns at most one
    entry per record. *)
Theorem clean_messages_well_formed `{Runtime} (ms : list json) :
  Forall (fun m => well_formed m = true) ms →
  ∃ out, clean_messages (JList ms) = Ok out
         ∧ (length out ≤ length ms)%nat.
Proof.
  intros Hms. rewrite clean_messages_list.
  destruct (clean_run_well_formed ms (∅, []) Hms) as (st' & -> & Hlen).
  by exists st'.2.
Qed.

Lemma clean_messages_well_formed_witness :
  ∃ out,
    @clean_messages example_runtime
      (JList [record (lit "Alice") (lit "hi");
              JDict [(k_sender, JStr (lit "Bob")); (k_message, JNull)]])
    = Ok out
    ∧ (length out ≤ 2)%nat.
Proof.
  apply (@clean_messages_well_formed example_runtime
           [record (lit "Alice") (lit "hi");
            JDict [(k_sender, JStr (lit "Bob")); (k_message, JNull)]]).
  by repeat constructor.
Defined.

Section NormalizerOrder.
Context `{Runtime}.

Lemma clean_run_repeat (ms : list json) (m : json)
      (st st' : gset str * list canonical) :
  clean_run ms st = Ok st' → m ∈ ms → clean_step m st' = Ok st'.
Proof.
  revert st. induction ms as [|m0 ms IH]; intros st; cbn [clean_run].
  - by intros _ ?%elem_of_nil.
  - destruct (clean_step m0 st) as [st1|] eqn:Hstep; [|done].
    intros Hrun [->|Hin]%elem_of_cons; [|by eapply IH].
    destruct st as [seen out], st1 as [seen1 out1], st' as [seen' out'].
    eapply clean_step_repeat; [exact Hstep|].
    by eapply clean_run_seen.
Qed.

End NormalizerOrder.

(** X12.  A record that occurs again later in the transcript is ignored
    there, wherever it reappears and whatever its shape: inserting a copy
    of an earlier record does not change the result. *)
Theorem clean_messages_repeat `{Runtime} (ms1 ms2 : list json) (m : json)
        (out : list canonical) :
  clean_messages (JList (ms1 ++ ms2)) = Ok out →
  m ∈ ms1 →
  clean_messages (JList (ms1 ++ m :: ms2)) = Ok out.
Proof.
  rewrite !clean_messages_list, !clean_run_app.
  destruct (clean_run ms1 (∅, [])) as [st1|] eqn:Hrun; [|done].
  intros Hout Hin. cbn [clean_run].
  by rewrite (clean_run_repeat _ _ _ _ Hrun Hin).
Qed.

Lemma clean_messages_repeat_witness :
  @clean_messages example_runtime
    (JList [record (lit "Alice") (lit "hi"); record (lit "Bob") (lit "yo");
            record (lit "Alice") (lit "hi")])
  = Ok [ {| c_sender := lit "Alice"; c_role := lit "Alice";
            c_message := lit "hi" |};
         {| c_sender := lit "Bob"; c_role := lit "Bob";
            c_message := lit "yo" |} ].
Proof.
  apply (@clean_messages_repeat example_runtime
           [record (lit "Alice") (lit "hi"); record (lit "Bob") (lit "yo")]
           [] (record (lit "Alice") (lit "hi"))).
  - vm_compute. reflexivity.
  - apply elem_of_cons. by left.
Defined.

(** X13.  The first record that raises ends the normalization with its
    exception, whatever follows it: if the normalizer raises on some
    records, it raises the same exception on these records followed by
    any others. *)
Theorem clean_messages_abort `{Runtime} (ms ms' : list json) (e : exn) :
  clean_messages (JList ms) = Raise e →
  clean_messages (JList (ms ++ ms')) = Raise e.
Proof.
  rewrite !clean_messages_list, clean_run_app.
  by destruct (clean_run ms (∅, [])).
Qed.

Lemma clean_messages_abort_witness :
  @clean_messages example_runtime
    (JList ([record (lit "Alice") (lit "hi"); record (lit " ") (lit "yo")]
            ++ [record (lit "Bob") (lit "ok")]))
  = Raise IndexError.
Proof.
  apply (@clean_messages_abort example_runtime
           [record (lit "Alice") (lit "hi"); record (lit " ") (lit "yo")]
           [record (lit "Bob") (lit "ok")] IndexError).
  vm_compute. reflexivity.
Defined.

(** X14.  The output follows the input: when the normalizer returns on
    some records and on these records followed by others, the first
    output is a prefix of the second. *)
Theorem clean_messages_prefix `{Runtime} (ms ms' : list json)
        (out out' : list canonical) :
  clean_messages (JList ms) = Ok out →
  clean_messages (JList (ms ++ ms')) = Ok out' →
  out `prefix_of` out'.
Proof.
  rewrite !clean_messages_list, clean_run_app.
  destruct (clean_run ms (∅, [])) as [[seen1 out1]|]; [|done].
  intros [= <-].
  destruct (clean_run ms' (seen1, out1)) as [[seen2 out2]|] eqn:Hrun;
    [|done].
  intros [= <-].
  destruct (clean_run_emits _ _ _ _ _ Hrun)
    as (rs & cs & _ & _ & _ & _ & _ & _ & -> & _).
  by exists cs.
Qed.

Lemma clean_messages_prefix_witness :
  [ {| c_sender := lit "Alice"; c_role := lit "Alice";
       c_message := lit "hi" |} ]
  `prefix_of`
  [ {| c_sender := lit "Alice"; c_role := lit "Alice";
       c_message := lit "hi" |};
    {| c_sender := lit "Bob"; c_role := lit "Bob";
       c_message := lit "yo" |} ].
Proof.
  apply (@clean_messages_prefix example_runtime
           [record (lit "Alice") (lit "hi")]
           [record (lit "Bob") (lit "yo")]);
    vm_compute; reflexivity.
Defined.

(** ** The roles offered after an upload *)

Lemma str_leb_total (a b : str) : str_leb a b = true ∨ str_leb b a = true.
Proof.
  revert b. induction a as [|x a IH]; intros [|y b]; simpl; auto.
  destruct (N.ltb_spec x y), (N.ltb_spec y x); auto; lia.
Qed.

Lemma str_leb_trans (a b c : str) :
  str_leb a b = true → str_leb b c = true → str_leb a c = true.
Proof.
  revert b c.
  induction a as [|x a IH]; intros [|y b] [|z c]; simpl; try done.
  destruct (N.ltb_spec x y), (N.ltb_spec y x), (N.ltb_spec y z),
    (N.ltb_spec z y), (N.ltb_spec x z), (N.ltb_spec z x);
    try done; try lia.
  apply IH.
Qed.

Lemma str_leb_antisym (a b : str) :
  str_leb a b = true → str_leb b a = true → a = b.
Proof.
  revert b. induction a as [|x a IH]; intros [|y b]; simpl; try done.
  destruct (N.ltb_spec x y), (N.ltb_spec y x); try done; try lia.
  intros Hab Hba. f_equal; [lia|by apply IH].
Qed.

(** X15.  The roles stored by an upload are exactly the roles of the
    normalized messages, each once, in increasing order of Python's
    string comparison. *)
Theorem sorted_roles_spec (cleaned : list canonical) :
  StronglySorted (fun a b => str_leb a b = true ∧ a ≠ b)
                 (sorted_roles cleaned)
  ∧ NoDup (sorted_roles cleaned)
  ∧ ∀ r, r ∈ sorted_roles cleaned ↔ ∃ c, c ∈ cleaned ∧ c_role c = r.
Proof.
  unfold sorted_roles.
  set (R := fun a b : str => Is_true (str_leb a b)).
  set (l := remove_dups (c_role <$> cleaned)).
  assert (Transitive R) as Htrans.
  { intros a b c Hab%Is_true_true Hbc%Is_true_true.
    apply Is_true_true. by eapply str_leb_trans. }
  assert (Total R) as Htotal.
  { intros a b. destruct (str_leb_total a b); [left|right];
      by apply Is_true_true. }
  pose proof (merge_sort_Permutation R l) as Hperm.
  pose proof (StronglySorted_merge_sort R l) as Hsorted.
  assert (NoDup (merge_sort R l)) as Hnodup
      by (rewrite Hperm; apply NoDup_remove_dups).
  split; [|split; [done|]].
  - clear Hperm. induction Hsorted as [|a rest Hrest IH Hall];
      [constructor|].
    apply NoDup_cons in Hnodup as [Ha Hnodup].
    constructor; [by apply IH|].
    apply Forall_forall. intros b Hb. split.
    + apply Is_true_true. by eapply Forall_forall in Hall.
    + by intros ->.
  - intros r. rewrite Hperm. unfold l.
    rewrite elem_of_remove_dups, list_elem_of_fmap. naive_solver.
Qed.

(** ** More on the reply generator *)

Section RetryLaws.
Context `{Tokenizer} {Env Store : Type} `{Backend Env Store}.

Implicit Types (st : state Env Store) (req : gen_request).

(** One failed attempt, whatever made it fail: when it is not the last
    one the loop sleeps and goes on, unless the delay is negative and
    the sleep raises. *)
Lemma generate_loop_step req retries delay remaining attempt st r w e :
  co_generate req (env st) = (r, w) →
  attempt_error r = Some e →
  generate_loop req retries delay (S remaining) attempt st
  = if attempt <? retries - 1
    then if delay <? 0
         then (Raise ValueError,
               {| sessions := sessions st; env := w;
                  trace := trace st ++ [EvGenerate req] |})
         else generate_loop req retries delay remaining (attempt + 1)
                {| sessions := sessions st; env := time_sleep delay w;
                   trace := trace st ++ [EvGenerate req; EvSleep delay] |}
    else (Raise e,
          {| sessions := sessions st; env := w;
             trace := trace st ++ [EvGenerate req] |}).
Proof.
  intros Hgen Herr. cbn [generate_loop]. unfold attempt_generate, py_sleep.
  unfold bind, ret, raise, call, try_except. rewrite Hgen.
  destruct r as [[|first others]|e']; simplify_eq/=;
    destruct (attempt <? retries - 1); simpl; try done;
    destruct (delay <? 0); simpl;
    by rewrite <- ?app_assoc.
Qed.


End RetryLaws.



Section CallBounds.
Context `{Tokenizer} {Env Store : Type} `{Backend Env Store}.

Implicit Types (st : state Env Store) (req : gen_request).

(** The events of a run of the loop: generation calls and sleeps only,
    at most one call per iteration, and a sleep only after a call whose
    index is below [retries - 1]. *)
Lemma generate_loop_events req retries delay remaining attempt st :
  ∃ evs,
    trace (generate_loop req retries delay remaining attempt st).2
    = trace st ++ evs
    ∧ Forall (fun ev => is_generate ev || is_sleep ev = true) evs
    ∧ (length (List.filter is_generate evs) ≤ remaining)%nat
    ∧ (length (List.filter is_sleep evs)
       ≤ Z.to_nat (retries - 1 - attempt))%nat
    ∧ (length (List.filter is_sleep evs)
       ≤ length (List.filter is_generate evs))%nat.
Proof.
  revert attempt st.
  induction remaining as [|remaining IH]; intros attempt st.
  - exists []. simpl. rewrite app_nil_r. repeat split; try done; lia.
  - destruct (co_generate req (env st)) as [r w] eqn:Hgen.
    destruct (attempt_error r) as [e|] eqn:Herr.
    + rewrite (generate_loop_step _ _ _ _ _ _ _ _ _ Hgen Herr).
      destruct (Z.ltb_spec attempt (retries - 1));
        [destruct (delay <? 0)|].
      * exists [EvGenerate req]. simpl.
        repeat split; try done; try lia. by repeat constructor.
      * destruct (IH (attempt + 1)
                    {| sessions := sessions st; env := time_sleep delay w;
                       trace := trace st ++ [EvGenerate req; EvSleep delay] |})
          as (evs & -> & Hall & Hgens & Hsleeps & Hle).
        exists (EvGenerate req :: EvSleep delay :: evs). simpl.
        rewrite <- app_assoc.
        repeat split; try done; try lia.
        by repeat constructor.
      * exists [EvGenerate req]. simpl.
        repeat split; try done; try lia. by repeat constructor.
    + destruct r as [[|first others]|]; try done.
      rewrite (generate_loop_success _ _ _ _ _ _ _ _ _ Hgen).
      exists [EvGenerate req]. simpl.
      repeat split; try done; try lia. by repeat constructor.
Qed.

End CallBounds.

(** X17.  Whatever the backends answer, one call of [gen_reply] queries
    the index once, first, and then only calls the generation service and
    sleeps: at most [retries] generation calls, at most [retries - 1]
    sleeps, and never more sleeps than calls. *)
Theorem gen_reply_call_bound `{Tokenizer} {Env Store : Type}
        `{Backend Env Store} (user_msg : str) (store : Store)
        (history : list str) (role : str) (retries delay : Z)
        (st : state Env Store) :
  ∃ evs,
    trace (gen_reply user_msg store history role retries delay st).2
    = trace st ++ EvSearch store user_msg 8 10 :: evs
    ∧ Forall (fun ev => is_generate ev || is_sleep ev = true) evs
    ∧ (length (List.filter is_generate evs) ≤ Z.to_nat retries)%nat
    ∧ (length (List.filter is_sleep evs) ≤ Z.to_nat (retries - 1))%nat
    ∧ (length (List.filter is_sleep evs)
       ≤ length (List.filter is_generate evs))%nat.
Proof.
  unfold gen_reply, bind, call, lift.
  destruct (similarity_search store user_msg 8 10 (env st))
    as [[similar|e] w].
  - destruct (assemble_context similar history role) as [ctx|e].
    + destruct (generate_loop_events
                  (reply_request user_msg ctx history role)
                  retries delay (Z.to_nat retries) 0
                  {| sessions := sessions st; env := w;
                     trace := trace st ++ [EvSearch store user_msg 8 10] |})
        as (evs & -> & Hall & Hgens & Hsleeps & Hle).
      exists evs. simpl. rewrite <- app_assoc.
      rewrite Z.sub_0_r in Hsleeps. by repeat split.
    + exists []. simpl. repeat split; try done; lia.
  - exists []. simpl. repeat split; try done; lia.
Qed.

(** X18.  With [retries <= 0] the loop body never runs: [gen_reply]
    queries the index, tokenizes the context lines and returns [None],
    without any generation call; or it raises the error of the index
    query, or the exception of the tokenizer. *)
Theorem gen_reply_no_attempt `{Tokenizer} {Env Store : Type}
        `{Backend Env Store} (user_msg : str) (store : Store)
        (history : list str) (role : str) (retries delay : Z)
        (st : state Env Store) :
  retries <= 0 →
  gen_reply user_msg store history role retries delay st
  = match similarity_search store user_msg 8 10 (env st) with
    | (Ok similar, w) =>
        (match assemble_context similar history role with
         | Ok _ => Ok None
         | Raise e => Raise e
         end,
         {| sessions := sessions st; env := w;
            trace := trace st ++ [EvSearch store user_msg 8 10] |})
    | (Raise e, w) =>
        (Raise e,
         {| sessions := sessions st; env := w;
            trace := trace st ++ [EvSearch store user_msg 8 10] |})
    end.
Proof.
  intros Hretries. unfold gen_reply, bind, call, lift.
  destruct (similarity_search store user_msg 8 10 (env st))
    as [[similar|e] w]; [|done].
  destruct (assemble_context similar history role) as [ctx|e]; [|done].
  by replace (Z.to_nat retries) with 0%nat by lia.
Qed.

Lemma gen_reply_no_attempt_witness :
  0 <= 0
  ∧ (@gen_reply char_tokenizer nat unit (flaky_backend 0)
       (lit "hello") tt [] (lit "Alice") 0 4 empty_state).1
    = Ok None
  ∧ (@gen_reply special_tokenizer nat unit (flaky_backend 0)
       (lit "hello") tt [lit "You: <|endoftext|>"] (lit "Alice")
       0 4 empty_state).1
    = Raise ValueError.
Proof.
  split; [lia|]. split.
  - rewrite (@gen_reply_no_attempt char_tokenizer nat unit (flaky_backend 0)
               (lit "hello") tt [] (lit "Alice") 0 4 empty_state);
      [reflexivity|lia].
  - rewrite (@gen_reply_no_attempt special_tokenizer nat unit
               (flaky_backend 0) (lit "hello") tt
               [lit "You: <|endoftext|>"] (lit "Alice") 0 4 empty_state);
      [reflexivity|lia].
Defined.



(** ** The prompt *)

Lemma lstrip_prompt_head (rest : str) :
  lstrip (nl ++ lit "You are " ++ rest) = lit "You are " ++ rest.
Proof. reflexivity. Qed.

Lemma rstrip_prompt_cue (s : str) :
  rstrip ((s ++ lit ":") ++ nl) = s ++ lit ":".
Proof.
  change (lit ":") with [58%N].
  unfold rstrip. rewrite !rev_app_distr. simpl.
  by rewrite rev_involutive.
Qed.

(** X19.  Whatever the user message, the context, the history and the
    persona, the prompt starts with [You are "<role>"] and ends with the
    line of the user message followed by the cue [<role>:], with no
    newline after it: the surrounding [strip()] removes the first and the
    last newline of the template and nothing else. *)
Theorem build_prompt_shape (user_msg : str) (ctx history : list str)
        (role : str) :
  (lit "You are " ++ dquote ++ role ++ dquote)
  `prefix_of` build_prompt user_msg ctx history role
  ∧ (nl ++ lit "User: " ++ user_msg ++ nl ++ role ++ lit ":")
    `suffix_of` build_prompt user_msg ctx history role.
Proof.
  unfold build_prompt, strip. rewrite lstrip_prompt_head.
  rewrite !app_assoc, rstrip_prompt_cue.
  split.
  - eexists. rewrite <- !app_assoc. reflexivity.
  - eexists. rewrite !app_assoc. reflexivity.
Qed.

(** ** More on the message handler *)

Section UploadPath.
Context `{Tokenizer} `{Runtime} {Env Store : Type} `{Backend Env Store}.

Implicit Types (st : state Env Store) (s : session Store) (uid : Z).

(** The loop over the attachments runs the body on the first [.json]
    attachment and on nothing else. *)
Lemma upload_loop_first uid (atts : list attachment) st :
  upload_loop uid atts st
  = match first_json atts with
    | Some att => process_upload uid att st
    | None => send_text msg_need_json st
    end.
Proof.
  induction atts as [|att atts IH]; [done|].
  unfold first_json in *. simpl.
  by destruct (endswith (filename att) (lit ".json")).
Qed.

(** The body for one attachment, case by case. *)
Lemma process_upload_outcome uid att st s :
  sessions st !! uid = Some s →
  process_upload uid att st
  = let progress := EvSend (Some msg_processing) None None in
    match loaded att with
    | Raise e =>
        (Raise e, {| sessions := sessions st; env := env st;
                     trace := trace st ++ [progress] |})
    | Ok raw =>
        match clean_messages raw with
        | Raise e =>
            (Raise e, {| sessions := sessions st; env := env st;
                         trace := trace st ++ [progress] |})
        | Ok [] =>
            (Ok tt,
             {| sessions := sessions st; env := env st;
                trace := trace st
                         ++ [progress; EvSend (Some msg_no_usable) None None] |})
        | Ok (m :: ms) =>
            let texts := c_message <$> m :: ms in
            let metas := (fun m => (c_sender m, c_role m)) <$> m :: ms in
            match faiss_from_texts texts metas (env st) with
            | (Raise e, w) =>
                (Raise e,
                 {| sessions := sessions st; env := w;
                    trace := trace st ++ [progress; EvBuild texts metas] |})
            | (Ok v, w) =>
                (Ok tt,
                 {| sessions :=
                      <[uid := replaced_session v (m :: ms)]> (sessions st);
                    env := w;
                    trace :=
                      trace st
                      ++ [progress; EvBuild texts metas;
                          EvSend None
                                 (Some (lit "Chat processed",
                                        lit "Select a persona:"))
                                 (Some (sorted_roles (m :: ms)))] |})
            end
        end
    end.
Proof.
  intros Hs.
  unfold process_upload, build_vector, read_session, modify_session,
    send_text.
  unfold bind, ret, raise, call, emit, lift, get_sessions, put_sessions.
  cbn -[clean_messages sorted_roles].
  destruct (loaded att) as [raw|e]; [|done].
  destruct (clean_messages raw) as [[|m ms]|e];
    cbn -[sorted_roles]; rewrite <- ?app_assoc; try done.
  destruct (faiss_from_texts _ _ (env st)) as [[v|e] w];
    cbn -[sorted_roles]; rewrite <- ?app_assoc; try done.
  rewrite (alter_present _ _ _ _ Hs), !alter_inserted, lookup_insert_eq.
  cbn -[sorted_roles]. by rewrite <- ?app_assoc.
Qed.

(** The handler on a private message with attachments. *)
Lemma on_message_upload (msg : message) st :
  from_bot msg = false → in_dm msg = true → attachments msg ≠ [] →
  on_message msg st
  = upload_loop (author_id msg) (attachments msg)
      {| sessions := dict_setdefault (author_id msg) new_session (sessions st);
         env := env st; trace := trace st |}.
Proof.
  intros Hbot Hdm Hatt. unfold on_message. rewrite Hbot, Hdm.
  destruct (attachments msg) as [|att atts]; [done|].
  unfold setdefault_session, bind, get_sessions, put_sessions.
  by cbn -[upload_loop dict_setdefault].
Qed.

End UploadPath.

Section ChatPath.
Context `{Tokenizer} `{Runtime} {Env Store : Type} `{Backend Env Store}.

Implicit Types (st : state Env Store) (s : session Store) (uid : Z).

(** The handler on a private message without attachment. *)
Lemma on_message_chat (msg : message) st :
  from_bot msg = false → in_dm msg = true → attachments msg = [] →
  on_message msg st
  = chat (author_id msg) msg
      {| sessions := dict_setdefault (author_id msg) new_session (sessions st);
         env := env st; trace := trace st |}.
Proof.
  intros Hbot Hdm Hatt. unfold on_message. rewrite Hbot, Hdm, Hatt.
  unfold setdefault_session, bind, get_sessions, put_sessions.
  by cbn -[chat dict_setdefault].
Qed.

(** The chat path returns, and changes at most the session of the
    user. *)
Lemma chat_total uid (msg : message) st s :
  sessions st !! uid = Some s →
  ∃ s' st',
    chat uid msg st = (Ok tt, st')
    ∧ sessions st' = <[uid := s']> (sessions st).
Proof.
  intros Hs.
  destruct (vector s) as [store|] eqn:Hvector.
  2:{ exists s. eexists. split; [by eapply chat_guidance; eauto|].
      simpl. by rewrite insert_id. }
  destruct (role s) as [[|c persona]|] eqn:Hrole.
  1,3:(exists s; eexists; split; [by eapply chat_guidance; eauto|];
       simpl; by rewrite insert_id).
  rewrite (chat_reply _ _ _ _ _ _ Hs Hvector Hrole) by done.
  destruct (gen_reply _ _ _ _ _ _ _) as [[reply|e] st2]; by eexists _, _.
Qed.

End ChatPath.

(** X20.  Of the attachments of a message only the first one whose name
    ends in ".json" counts: the handler does what it would do for that
    attachment alone; and with no such attachment it asks for a ".json"
    file and does nothing else (no backend call, the session as it
    was). *)
Theorem upload_first_json `{Tokenizer} `{Runtime} {Env Store : Type}
        `{Backend Env Store} (msg : message) (st : state Env Store) :
  from_bot msg = false → in_dm msg = true → attachments msg ≠ [] →
  match first_json (attachments msg) with
  | Some att =>
      on_message msg st
      = on_message {| from_bot := false; in_dm := true;
                      author_id := author_id msg;
                      attachments := [att]; content := content msg |} st
  | None =>
      on_message msg st
      = (Ok tt,
         {| sessions :=
              dict_setdefault (author_id msg) new_session (sessions st);
            env := env st;
            trace := trace st ++ [EvSend (Some msg_need_json) None None] |})
  end.
Proof.
  intros Hbot Hdm Hatt.
  rewrite (on_message_upload msg st Hbot Hdm Hatt), upload_loop_first.
  destruct (first_json (attachments msg)) as [att|] eqn:Hfirst; [|done].
  rewrite on_message_upload by done. cbn [author_id attachments].
  rewrite upload_loop_first. unfold first_json in *.
  apply find_some in Hfirst as [_ Hjson]. simpl. by rewrite Hjson.
Qed.

Lemma upload_first_json_witness :
  @on_message char_tokenizer example_runtime nat unit (flaky_backend 0)
    {| from_bot := false; in_dm := true; author_id := 7;
       attachments := [ {| filename := lit "photo.png";
                           loaded := Raise ValueError |} ];
       content := [] |}
    (state_of chatting_session)
  = (Ok tt,
     {| sessions := {[ 7 := chatting_session ]}; env := 0%nat;
        trace := [EvSend (Some (@msg_need_json)) None None] |}).
Proof.
  apply (@upload_first_json char_tokenizer example_runtime nat unit
           (flaky_backend 0)
           {| from_bot := false; in_dm := true; author_id := 7;
              attachments := [ {| filename := lit "photo.png";
                                  loaded := Raise ValueError |} ];
              content := [] |}
           (state_of chatting_session) eq_refl eq_refl ltac:(done)).
Defined.

(** X21.  A failing upload raises out of the handler without any error
    message to the user, who has only seen the progress message: the
    exception of [json.loads] or of the normalizer, raised before any
    backend call, or the exception of the index build. *)
Theorem upload_failure_unreported `{Tokenizer} `{Runtime} {Env Store : Type}
        `{Backend Env Store} (msg : message) (st : state Env Store)
        (att : attachment) (e : exn) :
  let uid := author_id msg in
  let progress := EvSend (Some msg_processing) None None in
  from_bot msg = false → in_dm msg = true →
  first_json (attachments msg) = Some att →
  (loaded att = Raise e
   ∨ (∃ raw, loaded att = Ok raw ∧ clean_messages raw = Raise e) →
   on_message msg st
   = (Raise e,
      {| sessions := dict_setdefault uid new_session (sessions st);
         env := env st; trace := trace st ++ [progress] |}))
  ∧ (∀ raw cleaned w,
        loaded att = Ok raw → clean_messages raw = Ok cleaned →
        cleaned ≠ [] →
        faiss_from_texts (c_message <$> cleaned)
                         ((fun m => (c_sender m, c_role m)) <$> cleaned)
                         (env st) = (Raise e, w) →
        on_message msg st
        = (Raise e,
           {| sessions := dict_setdefault uid new_session (sessions st);
              env := w;
              trace := trace st
                       ++ [progress;
                           EvBuild (c_message <$> cleaned)
                                   ((fun m => (c_sender m, c_role m))
                                      <$> cleaned)] |})).
Proof.
  intros uid progress Hbot Hdm Hfirst.
  assert (attachments msg ≠ []) as Hatt by (by destruct (attachments msg)).
  rewrite (on_message_upload msg st Hbot Hdm Hatt), upload_loop_first, Hfirst.
  erewrite process_upload_outcome by apply dict_setdefault_lookup.
  split.
  - intros [->|(raw & -> & ->)]; done.
  - intros raw cleaned w -> -> Hne Hbuild.
    destruct cleaned as [|m ms]; [done|]. cbn -[fmap]. by rewrite Hbuild.
Qed.

Lemma upload_failure_unreported_witness :
  (@on_message char_tokenizer example_runtime nat unit (flaky_backend 0)
     (upload_message 7 (lit "chat.json")
        (Ok (JList [record (lit " ") (lit "hi")])))
     (state_of chatting_session))
  = (Raise IndexError,
     {| sessions := {[ 7 := chatting_session ]}; env := 0%nat;
        trace := [EvSend (Some (@msg_processing)) None None] |}).
Proof.
  apply (@upload_failure_unreported char_tokenizer example_runtime nat unit
           (flaky_backend 0)
           (upload_message 7 (lit "chat.json")
              (Ok (JList [record (lit " ") (lit "hi")])))
           (state_of chatting_session) _ IndexError
           eq_refl eq_refl eq_refl).
  right. eexists. split; [reflexivity|]. vm_compute. reflexivity.
Defined.

(** X22.  An upload that goes through builds the index once, stores the
    new session and shows the role picker with the sorted roles; a plain
    message of the same user right after it is answered by the guidance
    message, with no retrieval or generation, until a persona is
    chosen. *)
Theorem upload_then_message `{Tokenizer} `{Runtime} {Env Store : Type}
        `{Backend Env Store} (msg : message) (st : state Env Store)
        (att : attachment) (raw : json) (cleaned : list canonical)
        (v : Store) (w : Env) (text : str) :
  let uid := author_id msg in
  let texts := c_message <$> cleaned in
  let metas := (fun m => (c_sender m, c_role m)) <$> cleaned in
  let st1 :=
    {| sessions :=
         <[uid := {| vector := Some v; history := [];
                     roles := sorted_roles cleaned; role := None |}]>
           (sessions st);
       env := w;
       trace := trace st
                ++ [EvSend (Some msg_processing) None None;
                    EvBuild texts metas;
                    EvSend None
                           (Some (lit "Chat processed",
                                  lit "Select a persona:"))
                           (Some (sorted_roles cleaned))] |} in
  from_bot msg = false → in_dm msg = true →
  first_json (attachments msg) = Some att →
  loaded att = Ok raw → clean_messages raw = Ok cleaned → cleaned ≠ [] →
  faiss_from_texts texts metas (env st) = (Ok v, w) →
  on_message msg st = (Ok tt, st1)
  ∧ on_message (plain_message uid text) st1
    = (Ok tt,
       {| sessions := sessions st1; env := w;
          trace := trace st1 ++ [EvSend (Some msg_guidance) None None] |}).
Proof.
  intros uid texts metas st1 Hbot Hdm Hfirst Hraw Hclean Hne Hbuild.
  assert (attachments msg ≠ []) as Hatt by (by destruct (attachments msg)).
  split.
  - rewrite (on_message_upload msg st Hbot Hdm Hatt), upload_loop_first,
      Hfirst.
    erewrite process_upload_outcome by apply dict_setdefault_lookup.
    rewrite Hraw, Hclean. destruct cleaned as [|m ms]; [done|].
    cbn -[fmap sorted_roles dict_setdefault].
    fold texts. fold metas. rewrite Hbuild.
    unfold st1, replaced_session, dict_setdefault. fold uid.
    destruct (sessions st !! uid); [done|].
    by rewrite insert_insert_eq.
  - rewrite on_message_chat by done. cbn [author_id plain_message].
    assert (sessions st1 !! uid
            = Some {| vector := Some v; history := [];
                      roles := sorted_roles cleaned; role := None |})
      as Hs by apply lookup_insert_eq.
    rewrite (dict_setdefault_present _ _ _ Hs).
    erewrite chat_guidance; [done|exact Hs|by right; left].
Qed.

Lemma upload_then_message_witness :
  (@on_message char_tokenizer example_runtime nat unit (flaky_backend 0)
     (plain_message 7 (lit "hello"))
     (@on_message char_tokenizer example_runtime nat unit (flaky_backend 0)
        (upload_message 7 (lit "chat.json")
           (Ok (JList [record (lit "Alice") (lit "hi")])))
        (state_of chatting_session)).2).1
  = Ok tt.
Proof.
  destruct (@upload_then_message char_tokenizer example_runtime nat unit
              (flaky_backend 0)
              (upload_message 7 (lit "chat.json")
                 (Ok (JList [record (lit "Alice") (lit "hi")])))
              (state_of chatting_session) _ _
              [ {| c_sender := lit "Alice"; c_role := lit "Alice";
                   c_message := lit "hi" |} ] tt 0%nat (lit "hello")
              eq_refl eq_refl eq_refl eq_refl eq_refl ltac:(done) eq_refl)
    as [Hupload Hmessage].
  rewrite Hupload. exact (f_equal fst Hmessage).
Defined.

(** X24.  The handler works on the session of the sender only: the
    session of every other user is left as it is, no session is ever
    removed, and a message of the bot itself or outside a private channel
    changes nothing at all, not even by creating a session. *)
Theorem on_message_frame `{Tokenizer} `{Runtime} {Env Store : Type}
        `{Backend Env Store} (msg : message) (st : state Env Store) :
  (∀ other, other ≠ author_id msg →
            sessions (on_message msg st).2 !! other = sessions st !! other)
  ∧ (∀ uid, is_Some (sessions st !! uid) →
            is_Some (sessions (on_message msg st).2 !! uid))
  ∧ (from_bot msg = true ∨ in_dm msg = false →
     on_message msg st = (Ok tt, st)).
Proof.
  assert (from_bot msg = true ∨ in_dm msg = false →
          on_message msg st = (Ok tt, st)) as Hignored.
  { unfold on_message. by intros [->| ->]; [|rewrite orb_true_r]. }
  assert (∃ s', sessions (on_message msg st).2 = sessions st
                ∨ sessions (on_message msg st).2
                  = <[author_id msg := s']> (sessions st)) as [s' Hfinal].
  { destruct (from_bot msg) eqn:Hbot;
      [exists new_session; left; by rewrite Hignored by auto|].
    destruct (in_dm msg) eqn:Hdm;
      [|exists new_session; left; by rewrite Hignored by auto].
    set (uid := author_id msg).
    pose proof (dict_setdefault_lookup uid (sessions st)) as Hs.
    assert (∀ x, <[uid := x]> (dict_setdefault uid new_session (sessions st))
                 = <[uid := x]> (sessions st)) as Hinsert.
    { intros x. unfold dict_setdefault.
      destruct (sessions st !! uid); [done|]. by rewrite insert_insert_eq. }
    destruct (attachments msg) as [|att0 atts] eqn:Hatt.
    - rewrite on_message_chat by done.
      edestruct (chat_total uid msg) as (s1 & st' & -> & Hst'); [exact Hs|].
      exists s1. right. cbn [snd]. rewrite Hst'. apply Hinsert.
    - assert (attachments msg ≠ []) as Hne by (by rewrite Hatt).
      rewrite on_message_upload, upload_loop_sessions by done.
      destruct (first_json (attachments msg)) as [att|].
      + erewrite process_upload_sessions by exact Hs.
        cbn [sessions env].
        destruct (loaded att) as [raw|];
          [|eexists; right; rewrite <- Hinsert; by rewrite insert_id].
        destruct (clean_messages raw) as [[|m ms]|];
          try (eexists; right; rewrite <- Hinsert; by rewrite insert_id).
        destruct (faiss_from_texts _ _ _) as [[v|] w];
          [eexists; right; apply Hinsert|].
        eexists; right; rewrite <- Hinsert; by rewrite insert_id.
      + cbn [sessions]. eexists; right; rewrite <- Hinsert.
        by rewrite insert_id. }
  split; [|split; [|done]].
  - intros other Hother. destruct Hfinal as [->| ->]; [done|].
    by rewrite lookup_insert_ne.
  - intros uid Hsome. destruct Hfinal as [->| ->]; [done|].
    rewrite lookup_insert. by case_decide.
Qed.

Section PersonaChoice.
Context `{Tokenizer} `{Runtime} {Env Store : Type} `{Backend Env Store}.

Implicit Types (st : state Env Store) (s : session Store) (uid : Z).

Lemma role_select_callback_present uid (value : str) st s :
  sessions st !! uid = Some s →
  role_select_callback uid value st
  = (Ok tt,
     {| sessions := <[uid := set_role (Some value) s]> (sessions st);
        env := env st;
        trace := trace st ++ [EvSend (Some (msg_role_set value)) None None] |}).
Proof.
  intros Hs. unfold role_select_callback, read_session, modify_session.
  unfold bind, ret, raise, emit, get_sessions, put_sessions. cbn.
  rewrite Hs. cbn. by rewrite (alter_present _ _ _ _ Hs).
Qed.

(** A reply obtained at the first attempt. *)
Lemma gen_reply_first_attempt (user_msg : str) (store : Store)
      (history : list str) (role : str) st similar ctx w1 first others w2 :
  similarity_search store user_msg 8 10 (env st) = (Ok similar, w1) →
  assemble_context similar history role = Ok ctx →
  co_generate (reply_request user_msg ctx history role) w1
  = (Ok (first :: others), w2) →
  gen_reply user_msg store history role 3 4 st
  = (Ok (Some (strip first)),
     {| sessions := sessions st; env := w2;
        trace := trace st
                 ++ [EvSearch store user_msg 8 10;
                     EvGenerate (reply_request user_msg ctx history role)] |}).
Proof.
  intros Hsearch Hctx Hgen.
  rewrite (gen_reply_loop _ _ _ _ _ _ _ _ _ _ Hsearch Hctx).
  change (Z.to_nat 3) with 3%nat.
  erewrite generate_loop_success by exact Hgen.
  simpl. by rewrite <- app_assoc.
Qed.

End PersonaChoice.

(** X25.  Choosing a persona changes the persona of the user's session
    and nothing else of it (index, roles and history stay), whatever the
    chosen value; for a user who has no session it raises [KeyError] and
    sends nothing. *)
Theorem role_select_callback_spec `{Tokenizer} `{Runtime} {Env Store : Type}
        `{Backend Env Store} (uid : Z) (value : str) (st : state Env Store) :
  match sessions st !! uid with
  | Some s =>
      role_select_callback uid value st
      = (Ok tt,
         {| sessions :=
              <[uid := {| vector := vector s; history := history s;
                          roles := roles s; role := Some value |}]>
                (sessions st);
            env := env st;
            trace := trace st
                     ++ [EvSend (Some (msg_role_set value)) None None] |})
  | None =>
      role_select_callback uid value st = (Raise (KeyError (JInt uid)), st)
  end.
Proof.
  destruct (sessions st !! uid) as [s|] eqn:Hs.
  - by apply role_select_callback_present.
  - unfold role_select_callback, read_session.
    unfold bind, ret, raise, get_sessions. cbn. by rewrite Hs.
Qed.

(** X26.  A whole turn: after the persona is chosen on a session that has
    an index, a plain message whose context lines the tokenizer accepts
    and whose generation succeeds at the first attempt, with a reply
    that is not blank, makes one index query and one generation call,
    sends the stripped first candidate, and leaves the user's entry and
    then the persona's entry at the end of the history. *)
Theorem persona_then_message `{Tokenizer} `{Runtime} {Env Store : Type}
        `{Backend Env Store} (uid : Z) (value text : str)
        (st : state Env Store) (s : session Store) (store : Store)
        (similar : list document) (ctx : list str)
        (first : str) (others : list str) (w1 w2 : Env) :
  let you := lit "You: " ++ text in
  let req := reply_request text ctx (history s ++ [you]) value in
  sessions st !! uid = Some s → vector s = Some store → value ≠ [] →
  similarity_search store text 8 10 (env st) = (Ok similar, w1) →
  assemble_context similar (history s ++ [you]) value = Ok ctx →
  co_generate req w1 = (Ok (first :: others), w2) →
  strip first ≠ [] →
  on_message (plain_message uid text) (role_select_callback uid value st).2
  = (Ok tt,
     {| sessions :=
          <[uid := {| vector := Some store;
                      history := history s
                                 ++ [you; value ++ lit ": " ++ strip first];
                      roles := roles s; role := Some value |}]>
            (sessions st);
        env := w2;
        trace := trace st
                 ++ [EvSend (Some (msg_role_set value)) None None;
                     EvTyping;
                     EvSearch store text 8 10;
                     EvGenerate req;
                     EvSend (Some (strip first)) None None] |}).
Proof.
  intros you req Hs Hvector Hvalue Hsearch Hctx Hgen _.
  rewrite (role_select_callback_present _ _ _ _ Hs). cbn [snd].
  rewrite on_message_chat by done.
  cbn [author_id plain_message sessions env trace].
  set (chosen := set_role (Some value) s).
  assert (<[uid := chosen]> (sessions st) !! uid = Some chosen) as Hchosen
      by apply lookup_insert_eq.
  rewrite (dict_setdefault_present _ _ _ Hchosen).
  erewrite chat_reply; [|exact Hchosen|exact Hvector|done|done].
  cbn [content plain_message].
  erewrite gen_reply_first_attempt; [|exact Hsearch|exact Hctx|exact Hgen].
  cbn -[lit]. rewrite !insert_insert_eq.
  unfold append_history, set_history, chosen, set_role. cbn -[lit].
  by rewrite Hvector, <- !app_assoc.
Qed.

Lemma persona_then_message_witness :
  history <$>
    (sessions
       (@on_message char_tokenizer example_runtime nat unit (flaky_backend 0)
          (plain_message 7 (lit "hello"))
          (@role_select_callback nat unit 7 (lit "Bob")
             (state_of indexed_session)).2).2 !! 7)
  = Some [lit "You: hello"; lit "Bob: on my way!"].
Proof.
  rewrite (@persona_then_message char_tokenizer example_runtime nat unit
             (flaky_backend 0) 7 (lit "Bob") (lit "hello")
             (state_of indexed_session) indexed_session tt _ _
             (lit "  on my way!  ") [lit "other"] 0%nat 1%nat
             eq_refl eq_refl ltac:(done) eq_refl eq_refl eq_refl
             ltac:(done)).
  reflexivity.
Defined.

(** ** The flattening script *)

Lemma flatten_messages_spec (date time : str) (ms acc flat : list json) :
  flatten_messages date time ms acc = Ok flat →
  ∃ rs, flat = acc ++ rs
        ∧ Forall2 (fun m r => flat_record date time m = Ok r) ms rs.
Proof.
  revert acc. induction ms as [|m ms IH]; intros acc; cbn [flatten_messages].
  - intros [= <-]. exists []. by rewrite app_nil_r.
  - destruct (flat_record date time m) as [r|] eqn:Hr; [|done].
    intros (rs & -> & Hrs)%IH. exists (r :: rs).
    rewrite <- app_assoc. split; [done|]. by constructor.
Qed.

Lemma flatten_times_spec (date : str) (ts : list (str * json))
      (acc flat : list json) :
  flatten_times date ts acc = Ok flat →
  ∃ rs, flat = acc ++ rs
        ∧ Forall2 (fun leaf r => flat_record date leaf.1 leaf.2 = Ok r)
                  (time_leaves ts) rs.
Proof.
  revert acc.
  induction ts as [|[time messages] ts IH]; intros acc;
    cbn [flatten_times time_leaves flat_map].
  - intros [= <-]. exists []. by rewrite app_nil_r.
  - destruct (iterate messages) as [ms|]; [|done].
    destruct (flatten_messages date time ms acc) as [flat1|] eqn:Hms;
      [|done].
    apply flatten_messages_spec in Hms as (rs1 & -> & Hrs1).
    intros (rs2 & -> & Hrs2)%IH. exists (rs1 ++ rs2).
    rewrite <- app_assoc. split; [done|].
    apply Forall2_app; [|done]. by apply Forall2_fmap_l.
Qed.

Lemma flatten_dates_spec (dates : list (str * json)) (acc flat : list json) :
  flatten_dates dates acc = Ok flat →
  ∃ rs, flat = acc ++ rs
        ∧ Forall2 (fun leaf r =>
                     flat_record leaf.1 leaf.2.1 leaf.2.2 = Ok r)
                  (nested_leaves dates) rs.
Proof.
  revert acc.
  induction dates as [|[date times] dates IH]; intros acc;
    cbn [flatten_dates nested_leaves flat_map].
  - intros [= <-]. exists []. by rewrite app_nil_r.
  - destruct (dict_items times) as [ts|]; [|done].
    destruct (flatten_times date ts acc) as [flat1|] eqn:Hts; [|done].
    apply flatten_times_spec in Hts as (rs1 & -> & Hrs1).
    intros (rs2 & -> & Hrs2)%IH. exists (rs1 ++ rs2).
    rewrite <- app_assoc. split; [done|].
    apply Forall2_app; [|done]. by apply Forall2_fmap_l.
Qed.

(** X27.  When the flattening script finishes, it has written one
    record per message of the nested transcript, in document order, each
    with its date, its cleaned time, and the sender and message of the
    message (null when the message lacks the field). *)
Theorem flatten_chat_order (dates : list (str * json)) (flat : list json) :
  flatten_chat (JDict dates) = Ok flat →
  Forall2 (fun leaf r =>
             ∃ d, leaf.2.2 = JDict d
                  ∧ r = JDict [(lit "date", JStr leaf.1);
                               (lit "time", JStr (clean_time leaf.2.1));
                               (lit "sender",
                                default JNull (dict_get d (lit "sender")));
                               (lit "message",
                                default JNull (dict_get d (lit "message")))])
          (nested_leaves dates) flat.
Proof.
  unfold flatten_chat. simpl.
  intros (rs & -> & Hrs)%flatten_dates_spec. simpl.
  eapply Forall2_impl; [exact Hrs|].
  intros [date [time m]] r. unfold flat_record, get_or_null. simpl.
  destruct m as [| | | | |d]; try done.
  intros [= <-]. by exists d.
Qed.

Lemma flatten_chat_order_witness :
  Forall2 (fun leaf r =>
             ∃ d, leaf.2.2 = JDict d
                  ∧ r = JDict [(lit "date", JStr leaf.1);
                               (lit "time", JStr (clean_time leaf.2.1));
                               (lit "sender",
                                default JNull (dict_get d (lit "sender")));
                               (lit "message",
                                default JNull (dict_get d (lit "message")))])
          (nested_leaves example_nested)
          [JDict [(lit "date", JStr (lit "01/01/2024"));
                  (lit "time", JStr (lit "10:00"));
                  (lit "sender", JStr (lit "Alice"));
                  (lit "message", JStr (lit "hi"))];
           JDict [(lit "date", JStr (lit "01/01/2024"));
                  (lit "time", JStr (lit "10:05"));
                  (lit "sender", JStr (lit "Bob"));
                  (lit "message", JNull)]].
Proof.
  apply (flatten_chat_order example_nested).
  vm_compute. reflexivity.
Defined.

Lemma lstrip_subset (s : str) (c : N) : c ∈ lstrip s → c ∈ s.
Proof.
  induction s as [|d s IH]; simpl; [done|].
  destruct (isspace d); [|done]. intros Hc. right. by apply IH.
Qed.

Lemma strip_subset (s : str) (c : N) : c ∈ strip s → c ∈ s.
Proof.
  unfold strip, rstrip. intros Hc.
  apply lstrip_subset.
  apply list_elem_of_In, in_rev, list_elem_of_In, lstrip_subset in Hc.
  by apply list_elem_of_In, in_rev, list_elem_of_In in Hc.
Qed.

(** X28.  The time written by the flattening script has no surrounding
    whitespace and no narrow no-break space (U+202F) left anywhere; a
    time that had neither is written as it is. *)
Theorem clean_time_spec (time : str) :
  strip (clean_time time) = clean_time time
  ∧ (8239%N ∉ clean_time time)
  ∧ (8239%N ∉ time → strip time = time → clean_time time = time).
Proof.
  unfold clean_time. split; [apply strip_idempotent|]. split.
  - intros (c & Hc & _)%strip_subset%list_elem_of_fmap.
    by destruct (N.eqb_spec c 8239).
  - intros Hfree Htrim. rewrite <- Htrim at 2. f_equal.
    rewrite <- (list_fmap_id time) at 2. apply list_fmap_ext.
    intros i c Hc. destruct (N.eqb_spec c 8239) as [->|]; [|done].
    destruct Hfree. by eapply list_elem_of_lookup_2.
Qed.

Section FlattenThenClean.
Context `{Runtime}.

(** On an object that has a sender, an iteration of the normalizer can
    only raise [AttributeError] or [IndexError]. *)
Lemma clean_step_raise_sender (d : list (str * json))
      (st : gset str * list canonical) (e : exn) :
  is_Some (dict_get d k_sender) →
  clean_step (JDict d) st = Raise e →
  e = AttributeError ∨ e = IndexError.
Proof.
  intros [sender Hsender]. destruct st as [seen out]. unfold clean_step.
  rewrite Hsender.
  destruct (dict_get d k_message) as [message|]; [|done].
  destruct (negb (truthy message) || eq_str message media_omitted); [done|].
  destruct (decide (dedup_key sender message ∈ seen)); [done|].
  destruct sender as [| | |s| |]; simpl; try (intros [= <-]; by left).
  destruct (split (strip s)); [intros [= <-]; by right|].
  destruct message as [| | |t| |]; simpl; try done; intros [= <-]; by left.
Qed.

Lemma clean_run_raise_sender (ms : list json)
      (st : gset str * list canonical) (e : exn) :
  Forall (fun m => ∃ d, m = JDict d ∧ is_Some (dict_get d k_sender)) ms →
  clean_run ms st = Raise e →
  e = AttributeError ∨ e = IndexError.
Proof.
  intros Hms. revert st.
  induction Hms as [|m ms (d & -> & Hd) _ IH]; intros st; cbn [clean_run];
    [done|].
  destruct (clean_step (JDict d) st) as [st1|e1] eqn:Hstep; [apply IH|].
  intros [= <-]. by eapply clean_step_raise_sender.
Qed.

Lemma flat_record_well_formed (date time : str) (m : json) :
  well_formed m = true →
  ∃ r, flat_record date time m = Ok r ∧ well_formed r = true.
Proof.
  intros Hm. unfold well_formed in Hm.
  destruct m as [| | | | |d]; try done.
  destruct (dict_get d k_sender) as [[| | |s| |]|] eqn:Hsender; try done.
  apply andb_true_iff in Hm as [Hs Hm].
  exists (JDict [(lit "date", JStr date);
                 (lit "time", JStr (clean_time time));
                 (lit "sender", JStr s);
                 (lit "message", default JNull (dict_get d k_message))]).
  split.
  - unfold flat_record, get_or_null.
    change (lit "sender") with k_sender.
    change (lit "message") with k_message.
    by rewrite Hsender.
  - unfold well_formed.
    assert (∀ v, dict_get [(lit "date", JStr date);
                           (lit "time", JStr (clean_time time));
                           (lit "sender", JStr s);
                           (lit "message", v)] k_sender = Some (JStr s))
      as -> by reflexivity.
    assert (∀ v, dict_get [(lit "date", JStr date);
                           (lit "time", JStr (clean_time time));
                           (lit "sender", JStr s);
                           (lit "message", v)] k_message = Some v)
      as -> by reflexivity.
    rewrite Hs.
    by destruct (dict_get d k_message) as [[| | |t| |]|].
Qed.

Lemma forallb_Forall_true {A} (f : A → bool) (l : list A) :
  forallb f l = true → Forall (fun x => f x = true) l.
Proof.
  induction l as [|x l IH]; simpl; [constructor|].
  intros [Hx Hl]%andb_true_iff. constructor; [done|by apply IH].
Qed.

Lemma flatten_messages_well_formed (date time : str) (ms acc : list json) :
  Forall (fun m => well_formed m = true) ms →
  Forall (fun m => well_formed m = true) acc →
  ∃ flat, flatten_messages date time ms acc = Ok flat
          ∧ Forall (fun m => well_formed m = true) flat.
Proof.
  intros Hms. revert acc.
  induction Hms as [|m ms Hm _ IH]; intros acc Hacc; cbn [flatten_messages].
  - by exists acc.
  - destruct (flat_record_well_formed date time m Hm) as (r & -> & Hr).
    apply IH. apply Forall_app. split; [done|]. by constructor.
Qed.

Lemma flatten_times_well_formed (date : str) (ts : list (str * json))
      (acc : list json) :
  forallb (fun '(_, messages) =>
             match messages with
             | JList ms => forallb well_formed ms
             | _ => false
             end) ts = true →
  Forall (fun m => well_formed m = true) acc →
  ∃ flat, flatten_times date ts acc = Ok flat
          ∧ Forall (fun m => well_formed m = true) flat.
Proof.
  revert acc. induction ts as [|[time messages] ts IH]; intros acc;
    cbn [flatten_times forallb].
  - by exists acc.
  - intros [Hms Hts]%andb_true_iff Hacc.
    destruct messages as [| | | |ms|]; try done. simpl iterate.
    apply forallb_Forall_true in Hms.
    destruct (flatten_messages_well_formed date time ms acc Hms Hacc)
      as (flat1 & -> & Hflat1).
    by apply IH.
Qed.

Lemma flatten_dates_well_formed (dates : list (str * json))
      (acc : list json) :
  nested_well_formed (JDict dates) = true →
  Forall (fun m => well_formed m = true) acc →
  ∃ flat, flatten_dates dates acc = Ok flat
          ∧ Forall (fun m => well_formed m = true) flat.
Proof.
  unfold nested_well_formed. revert acc.
  induction dates as [|[date times] dates IH]; intros acc;
    cbn [flatten_dates forallb].
  - by exists acc.
  - intros [Hts Hdates]%andb_true_iff Hacc.
    destruct times as [| | | | |ts]; try done. simpl dict_items.
    destruct (flatten_times_well_formed date ts acc Hts Hacc)
      as (flat1 & -> & Hflat1).
    by apply IH.
Qed.

End FlattenThenClean.

(** X29.  On the output of the flattening script the normalizer cannot
    fail for a missing sender or a record that is not an object: if it
    raises, the exception is [AttributeError] (a sender or a message that
    is not a string) or [IndexError] (a blank sender). *)
Theorem flatten_then_clean_errors `{Runtime} (nested_data : json)
        (flat : list json) (e : exn) :
  flatten_chat nested_data = Ok flat →
  clean_messages (JList flat) = Raise e →
  e = AttributeError ∨ e = IndexError.
Proof.
  unfold flatten_chat.
  destruct (dict_items nested_data) as [dates|]; [|done].
  intros (rs & -> & Hrs)%flatten_dates_spec. simpl.
  rewrite clean_messages_list.
  destruct (clean_run rs (∅, [])) as [|e'] eqn:Hrun; [done|].
  intros [= <-]. eapply clean_run_raise_sender; [|exact Hrun].
  clear Hrun. induction Hrs as [|[date [time m]] r leaves rs Hr _ IH];
    constructor; [|done].
  revert Hr. unfold flat_record, get_or_null. simpl.
  destruct m as [| | | | |d]; try done.
  intros [= <-]. eexists. split; [done|]. by eexists.
Qed.

Lemma flatten_then_clean_errors_witness :
  IndexError = AttributeError ∨ IndexError = IndexError.
Proof.
  apply (@flatten_then_clean_errors example_runtime
           (JDict [(lit "01/01/2024",
                    JDict [(lit "10:00",
                            JList [record (lit " ") (lit "hi")])])])
           [JDict [(lit "date", JStr (lit "01/01/2024"));
                   (lit "time", JStr (lit "10:00"));
                   (lit "sender", JStr (lit " "));
                   (lit "message", JStr (lit "hi"))]]
           IndexError); vm_compute; reflexivity.
Defined.

(** X30.  On a nested transcript whose dates hold objects of times,
    whose times hold lists, and whose messages have a string sender with
    a character that is not whitespace and a string, null or absent
    message, the loops of the flattening script run to their end without
    raising, and the normalizer returns on the list they have built,
    with at most one entry per flat record.  (Writing that list to the
    file is not part of the statement.) *)
Theorem flatten_then_clean `{Runtime} (nested_data : json) :
  nested_well_formed nested_data = true →
  ∃ flat out,
    flatten_chat nested_data = Ok flat
    ∧ clean_messages (JList flat) = Ok out
    ∧ (length out ≤ length flat)%nat.
Proof.
  intros Hnested. unfold flatten_chat.
  destruct nested_data as [| | | | |dates]; try done. simpl dict_items.
  destruct (flatten_dates_well_formed dates [] Hnested (Forall_nil_2 _))
    as (flat & -> & Hflat).
  destruct (clean_run_well_formed flat (∅, []) Hflat) as (st' & Hrun & Hlen).
  exists flat, st'.2. rewrite clean_messages_list, Hrun. by repeat split.
Qed.

Lemma flatten_then_clean_witness :
  ∃ flat out,
    flatten_chat
      (JDict [(lit "01/01/2024",
               JDict [(lit "10:00", JList [record (lit "Alice") (lit "hi")])])])
    = Ok flat
    ∧ @clean_messages example_runtime (JList flat) = Ok out
    ∧ (length out ≤ length flat)%nat.
Proof.
  apply (@flatten_then_clean example_runtime
           (JDict [(lit "01/01/2024",
                    JDict [(lit "10:00",
                            JList [record (lit "Alice") (lit "hi")])])])).
  reflexivity.
Defined.
